(** * Song Management System: record store, aggregation and client mirror

    A shallow embedding of the Express/Mongoose back end
    (controllers/songController.js, controllers/statisticsController.js,
    models/Song.js) and of the Redux front end (store/slices/songsSlice.ts,
    store/sagas/index.ts), with the properties of the system specification
    stated and settled over it. *)

From stdpp Require Import gmap list fin_maps fin_sets sorting.
From Stdlib Require Import ZArith NArith.

Local Open Scope Z_scope.
Local Open Scope nat_scope.

(** ** JavaScript strings

    A string is a sequence of UTF-16 code units, each a number below
    65536: [s.length] counts them and [s.trim()] works on them. *)

Definition code_unit : Type := N.

Inductive string : Type :=
| EmptyString
| String (c : code_unit) (s : string).

Arguments String c%_N s.

#[global] Instance string_eq_dec : EqDecision string.
Proof. solve_decision. Defined.

Module JsString.

Fixpoint units (s : string) : list code_unit :=
  match s with
  | String c s' => c :: units s'
  | EmptyString => []
  end.

Fixpoint of_units (l : list code_unit) : string :=
  match l with
  | c :: l' => String c (of_units l')
  | [] => EmptyString
  end.

(** String literals stand for ASCII text, one code unit for each
    character. *)
Definition unit_of_byte (b : Byte.byte) : option code_unit :=
  let n := Byte.to_N b in if (n <? 128)%N then Some n else None.

Fixpoint of_bytes (l : list Byte.byte) : option string :=
  match l with
  | b :: l' =>
      match unit_of_byte b, of_bytes l' with
      | Some c, Some s => Some (String c s)
      | _, _ => None
      end
  | [] => Some EmptyString
  end.

Definition byte_of_unit (c : code_unit) : option Byte.byte :=
  if (c <? 128)%N then Byte.of_N c else None.

Fixpoint to_bytes (s : string) : option (list Byte.byte) :=
  match s with
  | String c s' =>
      match byte_of_unit c, to_bytes s' with
      | Some b, Some l => Some (b :: l)
      | _, _ => None
      end
  | EmptyString => Some []
  end.

(** The code units [trim] strips: the WhiteSpace and LineTerminator code
    points of ECMAScript, which all lie in the Basic Multilingual Plane.
    They are TAB, LF, VT, FF, CR, SPACE, NO-BREAK SPACE, U+1680,
    U+2000 to U+200A, U+2028, U+2029, U+202F, U+205F, U+3000 and
    U+FEFF. *)
Definition is_space (c : code_unit) : bool :=
  existsb (N.eqb c)
    [9; 10; 11; 12; 13; 32; 160; 5760; 8232; 8233; 8239; 8287; 12288; 65279]%N
  || ((8192 <=? c) && (c <=? 8202))%N.

Fixpoint ltrim (s : string) : string :=
  match s with
  | String a s' => if is_space a then ltrim s' else s
  | EmptyString => EmptyString
  end.

Fixpoint rtrim (s : string) : string :=
  match s with
  | String a s' =>
      match rtrim s' with
      | EmptyString => if is_space a then EmptyString else String a EmptyString
      | r => String a r
      end
  | EmptyString => EmptyString
  end.

(** [s.trim()] *)
Definition trim (s : string) : string := rtrim (ltrim s).

(** [s1 + s2] *)
Fixpoint append (s1 s2 : string) : string :=
  match s1 with
  | String a s1' => String a (append s1' s2)
  | EmptyString => s2
  end.

(** [items.join(separator)] *)
Fixpoint join (separator : string) (items : list string) : string :=
  match items with
  | [] => EmptyString
  | [s] => s
  | s :: rest => append s (append separator (join separator rest))
  end.

(** The letters A to Z in lower case, every other code unit as it is. *)
Definition lower_letter (a : code_unit) : code_unit :=
  if ((65 <=? a) && (a <=? 90))%N then (a + 32)%N else a.

Fixpoint lower_letters (s : string) : string :=
  match s with
  | String a s' => String (lower_letter a) (lower_letters s')
  | EmptyString => EmptyString
  end.

(** [s.startsWith(p)] *)
Fixpoint prefix (p s : string) : bool :=
  match p, s with
  | EmptyString, _ => true
  | String a p', String b s' => (a =? b)%N && prefix p' s'
  | String _ _, EmptyString => false
  end.

(** [hay.includes(needle)]. *)
Fixpoint includes (needle hay : string) : bool :=
  prefix needle hay ||
  match hay with
  | String _ hay' => includes needle hay'
  | EmptyString => false
  end.

(** [s1 <= s2]: the comparison of strings, code unit by code unit. *)
Fixpoint leb (s1 s2 : string) : bool :=
  match s1, s2 with
  | EmptyString, _ => true
  | String _ _, EmptyString => false
  | String a s1', String b s2' =>
      (a <? b)%N || ((a =? b)%N && leb s1' s2')
  end.

(** A string is falsy exactly when it is empty. *)
Definition truthy (s : string) : bool :=
  match s with EmptyString => false | _ => true end.

(** [/^[0-9a-fA-F]{24}$/] *)
Definition is_hex (a : code_unit) : bool :=
  (((48 <=? a) && (a <=? 57)) || ((65 <=? a) && (a <=? 70))
   || ((97 <=? a) && (a <=? 102)))%N.

Fixpoint all_hex (s : string) : bool :=
  match s with
  | String a s' => is_hex a && all_hex s'
  | EmptyString => true
  end.

(** [s.length] *)
Fixpoint length (s : string) : nat :=
  match s with
  | String _ s' => S (length s')
  | EmptyString => 0
  end.

Definition matches_object_id (s : string) : bool :=
  (length s =? 24) && all_hex s.

End JsString.

#[global] Instance string_countable : Countable string.
Proof.
  refine (inj_countable' JsString.units JsString.of_units _).
  intros s. induction s as [|c s IH]; simpl; congruence.
Defined.

Declare Scope js_scope.
Delimit Scope js_scope with js.
Bind Scope js_scope with string.
String Notation string JsString.of_bytes JsString.to_bytes : js_scope.
Infix "+:+" := JsString.append (at level 60, right associativity) : js_scope.
Open Scope js_scope.

(** ** The back end *)

Module Backend.

(** *** Documents of the [songs] collection (models/Song.js) *)

Record Song : Type := mkSong {
  _id : string;
  title : string;
  artist : string;
  album : string;
  genre : string;
  createdAt : Z;
  updatedAt : Z
}.

#[global] Instance Song_eq_dec : EqDecision Song.
Proof. solve_decision. Defined.

(** The collection, in natural (insertion) order. *)
Abbreviation collection := (list Song).

(** *** Aggregation stages (MongoDB)

    [$group] emits one document for each distinct value of the [_id]
    expression; [{ $sum: 1 }] counts the documents of the group. *)

Section Stages.
Context {D K : Type} `{EqDecision K}.

(** [{ $group: { _id: key } }] *)
Definition group_ids (key : D → K) (docs : list D) : list K :=
  remove_dups (key <$> docs).

(** [{ $group: { _id: key, count: { $sum: 1 } } }] *)
Definition group_sum1 (key : D → K) (docs : list D) : list (K * nat) :=
  (λ k, (k, length (filter (λ d, key d = k) docs))) <$> group_ids key docs.

(** [{ $count: "count" }]: no output document on an empty input. *)
Definition count_stage (docs : list D) : list nat :=
  match docs with
  | [] => []
  | _ => [length docs]
  end.
End Stages.

(** [{ $sort: { count: -1 } }] *)
Definition count_desc {K} (x y : K * nat) : Prop := y.2 ≤ x.2.

#[global] Instance count_desc_dec {K} : RelDecision (@count_desc K).
Proof. intros x y. unfold count_desc. apply _. Defined.

#[global] Instance count_desc_total {K} : Total (@count_desc K).
Proof. intros x y. unfold count_desc. lia. Qed.

Definition sort_count_desc {K} (l : list (K * nat)) : list (K * nat) :=
  merge_sort count_desc l.

(** The result of the [$facet] stage of [getStatistics]. *)
Record facet_result : Type := mkFacet {
  f_totalSongs : list nat;
  f_totalArtists : list nat;
  f_totalAlbums : list nat;
  f_totalGenres : list nat;
  f_songsByGenre : list (string * nat);
  f_songsByArtist : list (string * nat);
  f_albumsByArtist : list (string * nat);
  f_songsByAlbum : list (string * nat)
}.

Definition statistics_pipeline (docs : collection) : facet_result :=
  {| f_totalSongs := count_stage docs;
     f_totalArtists := count_stage (group_ids artist docs);
     f_totalAlbums := count_stage (group_ids album docs);
     f_totalGenres := count_stage (group_ids genre docs);
     f_songsByGenre := sort_count_desc (group_sum1 genre docs);
     f_songsByArtist := sort_count_desc (group_sum1 artist docs);
     f_albumsByArtist :=
       sort_count_desc
         (group_sum1 fst (group_ids (λ d, (artist d, album d)) docs));
     f_songsByAlbum := sort_count_desc (group_sum1 album docs) |}.

(** *** statisticsController.js *)

Record Statistics : Type := mkStatistics {
  totalSongs : nat;
  totalArtists : nat;
  totalAlbums : nat;
  totalGenres : nat;
  songsByGenre : gmap string nat;
  songsByArtist : gmap string nat;
  albumsByArtist : gmap string nat;
  songsByAlbum : gmap string nat
}.

(** [arr.reduce((acc, curr) => ({ ...acc, [curr._id]: curr.count }), {})] *)
Definition toMap (arr : list (string * nat)) : gmap string nat :=
  foldl (λ acc curr, <[curr.1 := curr.2]> acc) ∅ arr.

(** [arr[0]?.count || 0] *)
Definition first_count (arr : list nat) : nat := default 0 (head arr).

Definition formattedStats (result : facet_result) : Statistics :=
  {| totalSongs := first_count (f_totalSongs result);
     totalArtists := first_count (f_totalArtists result);
     totalAlbums := first_count (f_totalAlbums result);
     totalGenres := first_count (f_totalGenres result);
     songsByGenre := toMap (f_songsByGenre result);
     songsByArtist := toMap (f_songsByArtist result);
     albumsByArtist := toMap (f_albumsByArtist result);
     songsByAlbum := toMap (f_songsByAlbum result) |}.

(** *** songController.js: [songValidationSchema]

    A request body carries, for each of the four keys of the schema, either
    nothing ([undefined]), a string, or some other JSON value ([null], a
    number, ...).  Bodies with further keys, which Joi rejects as unknown,
    are left out of the model. *)

Inductive json_field : Type :=
| Absent
| Str (s : string)
| NotStr.

Record payload : Type := mkPayload {
  p_title : json_field;
  p_artist : json_field;
  p_album : json_field;
  p_genre : json_field
}.

(** Joi's normalised [value]: the four fields, trimmed. *)
Record song_value : Type := mkValue {
  v_title : string;
  v_artist : string;
  v_album : string;
  v_genre : string
}.

Inductive joi_code : Type :=
| any_required
| string_base
| string_empty
| string_min
| string_max.

(** One entry of [error.details]. *)
Record joi_detail : Type := mkDetail {
  d_path : string;
  d_code : joi_code;
  d_message : string
}.

(** [Joi.string().trim().min(1).max(n).required().messages({...})] *)
Record string_schema : Type := mkSchema {
  s_key : string;
  s_max : nat;
  msg_empty : string;
  msg_min : string;
  msg_max : string;
  msg_required : string
}.

Definition title_schema : string_schema :=
  {| s_key := "title"; s_max := 200;
     msg_empty := "Song title is required";
     msg_min := "Song title cannot be empty";
     msg_max := "Song title cannot exceed 200 characters";
     msg_required := "Song title is required" |}.

Definition artist_schema : string_schema :=
  {| s_key := "artist"; s_max := 100;
     msg_empty := "Artist name is required";
     msg_min := "Artist name cannot be empty";
     msg_max := "Artist name cannot exceed 100 characters";
     msg_required := "Artist name is required" |}.

Definition album_schema : string_schema :=
  {| s_key := "album"; s_max := 200;
     msg_empty := "Album name is required";
     msg_min := "Album name cannot be empty";
     msg_max := "Album name cannot exceed 200 characters";
     msg_required := "Album name is required" |}.

Definition genre_schema : string_schema :=
  {| s_key := "genre"; s_max := 50;
     msg_empty := "Genre is required";
     msg_min := "Genre cannot be empty";
     msg_max := "Genre cannot exceed 50 characters";
     msg_required := "Genre is required" |}.

Definition dquote : string := String 34%N EmptyString.

(** Joi's built-in template for [string.base], which the schema does not
    override. *)
Definition default_base_message (key : string) : string :=
  dquote +:+ key +:+ dquote +:+ " must be a string".

(** Validation of one key: presence, type, then (after the [trim]
    conversion) emptiness and the length rules, stopping at the first rule
    that fails. *)
Definition validate_string (sch : string_schema) (v : json_field)
  : joi_detail + string :=
  match v with
  | Absent => inl (mkDetail (s_key sch) any_required (msg_required sch))
  | NotStr =>
      inl (mkDetail (s_key sch) string_base (default_base_message (s_key sch)))
  | Str s =>
      let s' := JsString.trim s in
      if negb (JsString.truthy s')
      then inl (mkDetail (s_key sch) string_empty (msg_empty sch))
      else if JsString.length s' <? 1
      then inl (mkDetail (s_key sch) string_min (msg_min sch))
      else if s_max sch <? JsString.length s'
      then inl (mkDetail (s_key sch) string_max (msg_max sch))
      else inr s'
  end.

Definition detail_of {A} (r : joi_detail + A) : list joi_detail :=
  match r with inl d => [d] | inr _ => [] end.

(** [schema.validate(body, { abortEarly })] for the object schema: the keys
    are visited in the order of the schema; with [abortEarly] the first
    error ends the validation. *)
Definition joi_validate (abortEarly : bool) (body : payload)
  : list joi_detail + song_value :=
  let rt := validate_string title_schema (p_title body) in
  let ra := validate_string artist_schema (p_artist body) in
  let rl := validate_string album_schema (p_album body) in
  let rg := validate_string genre_schema (p_genre body) in
  match rt, ra, rl, rg with
  | inr t, inr a, inr l, inr g => inr (mkValue t a l g)
  | _, _, _, _ =>
      let errors := detail_of rt ++ detail_of ra ++ detail_of rl ++ detail_of rg in
      inl (if abortEarly then take 1 errors else errors)
  end.

(** [songValidationSchema.validate(req.body)]: no options are passed, so
    Joi's default [abortEarly: true] applies. *)
Definition songValidationSchema_validate (body : payload)
  : list joi_detail + song_value :=
  joi_validate true body.

(** *** models/Song.js: schema setters and validators *)

(** [trim: true] on every path. *)
Definition schema_cast (v : song_value) : song_value :=
  {| v_title := JsString.trim (v_title v);
     v_artist := JsString.trim (v_artist v);
     v_album := JsString.trim (v_album v);
     v_genre := JsString.trim (v_genre v) |}.

(** [required], [minlength] and [maxlength] of one path. *)
Definition path_errors (sch : string_schema) (s : string)
  : list (string * string) :=
  if negb (JsString.truthy s) then [(s_key sch, msg_required sch)]
  else if JsString.length s <? 1 then [(s_key sch, msg_min sch)]
  else if s_max sch <? JsString.length s then [(s_key sch, msg_max sch)]
  else [].

Definition schema_errors (v : song_value) : list (string * string) :=
  path_errors title_schema (v_title v) ++ path_errors artist_schema (v_artist v)
  ++ path_errors album_schema (v_album v) ++ path_errors genre_schema (v_genre v).

(** *** The store: Mongoose operations used by the controllers *)

Inductive db_error : Type :=
| ValidationError (errors : list (string * string))
| CastError
| StorageError (message : string).

(** A value of [req.query]: the query parser delivers a string, an array
    (a repeated key) or an object (a key with brackets). *)
#[local] Unset Elimination Schemes.
Inductive query_value : Type :=
| QString (s : string)
| QArray (items : list query_value)
| QObject (fields : list (string * query_value)).
#[local] Set Elimination Schemes.

(** The filter object handed to [Song.find]: [{}] or [{ genre: value }]. *)
Inductive find_filter : Type :=
| NoFilter
| ByGenre (value : query_value).

(** The conditions of a [find] once Mongoose has cast the filter: every
    document, the documents of one genre, or the documents selected by
    the query operators of the filter. *)
Inductive find_query : Type :=
| QAll
| QGenre (g : string)
| QSelect (selects : Song → bool).

Inductive db_op : Type → Type :=
| Aggregate : db_op facet_result
| FindSorted (f : find_filter) : db_op (list Song)
| Save (v : song_value) : db_op Song
| FindByIdAndUpdate (id : string) (v : song_value) : db_op (option Song)
| FindByIdAndDelete (id : string) : db_op (option Song).

(** What an operation depends on besides the documents: the clock and the
    identifier generator on a write, and on a [find] what Mongoose makes of
    a [genre] condition that is not a string (an array or an object): a
    cast error, or the documents that the operators of the condition
    select.  The controllers fix none of the three. *)
Record db_env : Type := mkEnv {
  now : Z;
  fresh_id : string;
  cast_condition : query_value → db_error + (Song → bool)
}.

(** Mongoose casts the filter with the schema of the path: a string goes
    through the [trim: true] setter of [genre], and the condition is an
    equality match with the result. *)
Definition cast_filter (env : db_env) (f : find_filter)
  : db_error + find_query :=
  match f with
  | NoFilter => inr QAll
  | ByGenre (QString g) => inr (QGenre (JsString.trim g))
  | ByGenre value =>
      match cast_condition env value with
      | inl error => inl error
      | inr selects => inr (QSelect selects)
      end
  end.

Definition query_matches (q : find_query) (d : Song) : bool :=
  match q with
  | QAll => true
  | QGenre g => bool_decide (genre d = g)
  | QSelect selects => selects d
  end.

(** [.sort({ createdAt: -1 })] *)
Definition created_desc (x y : Song) : Prop := (createdAt y ≤ createdAt x)%Z.

#[global] Instance created_desc_dec : RelDecision created_desc.
Proof. intros x y. unfold created_desc. apply _. Defined.

#[global] Instance created_desc_total : Total created_desc.
Proof. intros x y. unfold created_desc. lia. Qed.

Definition find_sorted (q : find_query) (docs : collection) : list Song :=
  merge_sort created_desc (filter (λ d, query_matches q d = true) docs).

(** A 24-digit hexadecimal string denotes an ObjectId whatever the case of
    its digits; stored identifiers print in lower case. *)
Definition cast_object_id (id : string) : string := JsString.lower_letters id.

Definition has_id (id : string) (d : Song) : bool :=
  bool_decide (_id d = cast_object_id id).

Fixpoint find_by_id (id : string) (docs : collection) : option Song :=
  match docs with
  | [] => None
  | d :: ds => if has_id id d then Some d else find_by_id id ds
  end.

Definition apply_update (env : db_env) (v : song_value) (d : Song) : Song :=
  {| _id := _id d;
     title := v_title v;
     artist := v_artist v;
     album := v_album v;
     genre := v_genre v;
     createdAt := createdAt d;
     updatedAt := now env |}.

Definition new_document (env : db_env) (v : song_value) : Song :=
  {| _id := fresh_id env;
     title := v_title v;
     artist := v_artist v;
     album := v_album v;
     genre := v_genre v;
     createdAt := now env;
     updatedAt := now env |}.

(** Removal of the first document with the given identifier. *)
Fixpoint remove_by_id (id : string) (docs : collection) : collection :=
  match docs with
  | [] => []
  | d :: ds => if has_id id d then ds else d :: remove_by_id id ds
  end.

Fixpoint update_by_id (id : string) (f : Song → Song) (docs : collection)
  : collection :=
  match docs with
  | [] => []
  | d :: ds => if has_id id d then f d :: ds else d :: update_by_id id f ds
  end.

(** One operation against an available store. *)
Definition exec_op {T} (op : db_op T) (env : db_env) (docs : collection)
  : (T + db_error) * collection :=
  match op in db_op T return (T + db_error) * collection with
  | Aggregate => (inl (statistics_pipeline docs), docs)
  | FindSorted f =>
      match cast_filter env f with
      | inl error => (inr error, docs)
      | inr q => (inl (find_sorted q docs), docs)
      end
  | Save v =>
      let v' := schema_cast v in
      match schema_errors v' with
      | [] => let d := new_document env v' in (inl d, docs ++ [d])
      | errs => (inr (ValidationError errs), docs)
      end
  | FindByIdAndUpdate id v =>
      let v' := schema_cast v in
      match schema_errors v' with
      | [] =>
          (inl (apply_update env v' <$> find_by_id id docs),
           update_by_id id (apply_update env v') docs)
      | errs => (inr (ValidationError errs), docs)
      end
  | FindByIdAndDelete id =>
      (inl (find_by_id id docs), remove_by_id id docs)
  end.

(** Controllers are programs over the store operations; an operation
    either returns or throws. *)
Inductive prog (A : Type) : Type :=
| Ret (a : A)
| Bind {T : Type} (op : db_op T) (k : T + db_error → prog A).

Arguments Ret {A} a.
Arguments Bind {A T} op k.

Notation "'await' x <- op ; k" := (Bind op (λ x, k))
  (at level 10, x binder, op at level 100, k at level 200).

Fixpoint run {A} (p : prog A) (env : db_env) (docs : collection)
  : A * collection :=
  match p with
  | Ret a => (a, docs)
  | Bind op k =>
      let r := exec_op op env docs in run (k r.1) env r.2
  end.

(** The store operations a program issues when every one of them throws
    (the store is unavailable), and the value it then returns. *)
Fixpoint run_unavailable {A} (err : db_error) (p : prog A) : A :=
  match p with
  | Ret a => a
  | Bind op k => run_unavailable err (k (inr err))
  end.

(** Does the program reach the store at all? *)
Definition reaches_store {A} (p : prog A) : bool :=
  match p with
  | Ret _ => false
  | Bind _ _ => true
  end.

(** *** Responses *)

Inductive response_data : Type :=
| DataSong (s : Song)
| DataSongs (l : list Song)
| DataStatistics (s : Statistics).

Record error_info : Type := mkError {
  message : string;
  code : string;
  details : option (list (string * string))
}.

Inductive response_body : Type :=
| Success (data : response_data) (count : option nat) (msg : string)
| Failure (error : error_info).

Record response : Type := mkResponse {
  status : nat;
  json : response_body
}.

Definition fail (st : nat) (m c : string) : response :=
  mkResponse st (Failure (mkError m c None)).

Definition validation_failed (ds : list (string * string)) : response :=
  mkResponse 400 (Failure (mkError "Validation failed" "VALIDATION_ERROR" (Some ds))).

(** [error.details.map(detail => ({ field: detail.path[0], message: detail.message }))] *)
Definition joi_details (ds : list joi_detail) : list (string * string) :=
  (λ d, (d_path d, d_message d)) <$> ds.

(** *** statisticsController.js: [getStatistics] *)

Definition getStatistics : prog response :=
  await stats <- Aggregate;
  match stats with
  | inl result =>
      Ret (mkResponse 200
             (Success (DataStatistics (formattedStats result)) None
                "Statistics retrieved successfully"))
  | inr _ => Ret (fail 500 "Failed to retrieve statistics" "INTERNAL_ERROR")
  end.

(** *** songController.js *)

Definition createSong (body : payload) : prog response :=
  match songValidationSchema_validate body with
  | inl error => Ret (validation_failed (joi_details error))
  | inr value =>
      await saved <- Save value;
      match saved with
      | inl savedSong =>
          Ret (mkResponse 201
                 (Success (DataSong savedSong) None "Song created successfully"))
      | inr (ValidationError errors) => Ret (validation_failed errors)
      | inr _ => Ret (fail 500 "Failed to create song" "INTERNAL_ERROR")
      end
  end.

Definition getAllSongs : prog response :=
  await found <- FindSorted NoFilter;
  match found with
  | inl songs =>
      Ret (mkResponse 200
             (Success (DataSongs songs) (Some (length songs))
                (if decide (length songs = 0) then "No songs found"
                 else "Songs retrieved successfully")))
  | inr _ => Ret (fail 500 "Failed to retrieve songs" "INTERNAL_ERROR")
  end.

Definition updateSong (id : string) (body : payload) : prog response :=
  if negb (JsString.matches_object_id id)
  then Ret (fail 400 "Invalid song ID format" "INVALID_ID")
  else
    match songValidationSchema_validate body with
    | inl error => Ret (validation_failed (joi_details error))
    | inr value =>
        await updated <- FindByIdAndUpdate id value;
        match updated with
        | inl None => Ret (fail 404 "Song not found" "SONG_NOT_FOUND")
        | inl (Some updatedSong) =>
            Ret (mkResponse 200
                   (Success (DataSong updatedSong) None "Song updated successfully"))
        | inr (ValidationError errors) => Ret (validation_failed errors)
        | inr _ => Ret (fail 500 "Failed to update song" "INTERNAL_ERROR")
        end
    end.

Definition deleteSong (id : string) : prog response :=
  if negb (JsString.matches_object_id id)
  then Ret (fail 400 "Invalid song ID format" "INVALID_ID")
  else
    await deleted <- FindByIdAndDelete id;
    match deleted with
    | inl None => Ret (fail 404 "Song not found" "SONG_NOT_FOUND")
    | inl (Some deletedSong) =>
        Ret (mkResponse 200
               (Success (DataSong deletedSong) None "Song deleted successfully"))
    | inr _ => Ret (fail 500 "Failed to delete song" "INTERNAL_ERROR")
    end.

(** [!!value]: of the values of a query, only the empty string is falsy. *)
Definition query_truthy (value : query_value) : bool :=
  match value with
  | QString s => JsString.truthy s
  | _ => true
  end.

(** [`${value}`]: a string as it is, an array as its elements joined by
    commas, an object as the fixed text of [Object.prototype.toString]. *)
Fixpoint template_text (value : query_value) : string :=
  match value with
  | QString s => s
  | QArray items => JsString.join "," (List.map template_text items)
  | QObject _ => "[object Object]"
  end.

(** [req.query.genre] is absent or a value of the query; [!genre] holds
    for [undefined] and for the empty string. *)
Definition filterSongs (genre : option query_value) : prog response :=
  match genre with
  | Some g =>
      if negb (query_truthy g)
      then Ret (fail 400 "Genre query parameter is required" "MISSING_PARAMETER")
      else
        await found <- FindSorted (ByGenre g);
        match found with
        | inl songs =>
            Ret (mkResponse 200
                   (Success (DataSongs songs) (Some (length songs))
                      (if decide (length songs = 0)
                       then "No songs found for genre: " +:+ template_text g
                       else "Songs filtered by genre: " +:+ template_text g)))
        | inr _ => Ret (fail 500 "Failed to filter songs" "INTERNAL_ERROR")
        end
  | None => Ret (fail 400 "Genre query parameter is required" "MISSING_PARAMETER")
  end.

(** *** The filter as the specification words it

    "case-insensitive substring match, ordered by title": the reading the
    specification gives of [findByGenre], kept apart from [filterSongs]
    above so that the two can be compared. *)

Definition title_asc (x y : Song) : Prop :=
  JsString.leb (title x) (title y) = true.

#[global] Instance title_asc_dec : RelDecision title_asc.
Proof. intros x y. unfold title_asc. apply _. Defined.

Definition genre_contains_ci (g : string) (d : Song) : bool :=
  JsString.includes (JsString.lower_letters g) (JsString.lower_letters (genre d)).

Definition spec_findByGenre (g : string) (docs : collection) : list Song :=
  merge_sort title_asc (filter (λ d, genre_contains_ci g d = true) docs).

(** *** Notions used to state the properties *)

(** The statistics the controller computes over a given collection. *)
Definition computeStatistics (docs : collection) : Statistics :=
  formattedStats (statistics_pipeline docs).

(** An entry of a grouped map: a key with no record is absent. *)
Definition count_entry (n : nat) : option nat :=
  if decide (n = 0) then None else Some n.

(** The sum of the values of a grouped map. *)
Definition sum_values (m : gmap string nat) : nat :=
  sum_list_with snd (map_to_list m).

(** Reading a grouped map, an absent key counting as 0. *)
Definition count_of (m : gmap string nat) (k : string) : nat :=
  default 0 (m !! k).

(** The details of every violating field, in the order of the schema. *)
Definition violations (body : payload) : list joi_detail :=
  detail_of (validate_string title_schema (p_title body))
  ++ detail_of (validate_string artist_schema (p_artist body))
  ++ detail_of (validate_string album_schema (p_album body))
  ++ detail_of (validate_string genre_schema (p_genre body)).

(** The (artist, album) pairs of a collection. *)
Definition artist_album (d : Song) : string * string := (artist d, album d).

(** *** Sample data *)

Definition sample_env : db_env :=
  {| now := 1700000000000%Z; fresh_id := "65a000000000000000000003";
     cast_condition := λ _, inl CastError |}.

Definition rock_b : Song :=
  {| _id := "65a000000000000000000001"; title := "B side"; artist := "X";
     album := "M"; genre := "Rock";
     createdAt := 2000%Z; updatedAt := 2000%Z |}.

Definition rock_a : Song :=
  {| _id := "65a000000000000000000002"; title := "A side"; artist := "X";
     album := "N"; genre := "Rock";
     createdAt := 1000%Z; updatedAt := 1000%Z |}.

Definition jazz_c : Song :=
  {| _id := "65a000000000000000000004"; title := "C jam"; artist := "Y";
     album := "M"; genre := "Jazz";
     createdAt := 3000%Z; updatedAt := 3000%Z |}.

Definition sample_docs : collection := [rock_a; rock_b; jazz_c].

Definition sample_body : payload :=
  {| p_title := Str " A "; p_artist := Str "X"; p_album := Str "M";
     p_genre := Str "Rock " |}.

Definition sample_value : song_value :=
  {| v_title := "A"; v_artist := "X"; v_album := "M"; v_genre := "Rock" |}.

(** A body with two violating fields: no title, and an artist that is
    empty once trimmed. *)
Definition two_violations : payload :=
  {| p_title := Absent; p_artist := Str "  "; p_album := Str "M";
     p_genre := Str "Rock" |}.

(** *** routes/songRoutes.js, routes/statisticsRoutes.js *)

Inductive request : Type :=
| GET_songs
| POST_songs (body : payload)
| GET_songs_filter (genre : option query_value)
| PUT_songs (id : string) (body : payload)
| DELETE_songs (id : string)
| GET_statistics.

Definition router (req : request) : prog response :=
  match req with
  | GET_songs => getAllSongs
  | POST_songs body => createSong body
  | GET_songs_filter genre => filterSongs genre
  | PUT_songs id body => updateSong id body
  | DELETE_songs id => deleteSong id
  | GET_statistics => getStatistics
  end.

(** The [message] of the 500 answer of each controller. *)
Definition internal_error_text (req : request) : string :=
  match req with
  | GET_songs => "Failed to retrieve songs"
  | POST_songs _ => "Failed to create song"
  | GET_songs_filter _ => "Failed to filter songs"
  | PUT_songs _ _ => "Failed to update song"
  | DELETE_songs _ => "Failed to delete song"
  | GET_statistics => "Failed to retrieve statistics"
  end.

(** *** middleware/validationMiddleware.js

    [validateRequest(schema)]: answers 400 itself, or replaces [req.body]
    by the validated value and calls [next]. *)

Definition body_of_value (v : song_value) : payload :=
  {| p_title := Str (v_title v); p_artist := Str (v_artist v);
     p_album := Str (v_album v); p_genre := Str (v_genre v) |}.

Definition validateRequest (body : payload) (next : payload → prog response)
  : prog response :=
  match songValidationSchema_validate body with
  | inl error => Ret (validation_failed (joi_details error))
  | inr value => next (body_of_value value)
  end.

(** *** models/Song.js: the [getStatistics] static

    [$group] with [_id: null] gathers all documents in one group (none on
    an empty collection); [$addToSet] keeps the distinct values and [$size]
    counts them. *)

Record totals : Type := mkTotals {
  t_totalSongs : nat;
  t_totalArtists : nat;
  t_totalAlbums : nat;
  t_totalGenres : nat
}.

Record totals_group : Type := mkTotalsGroup {
  g_totalSongs : nat;
  g_uniqueArtists : list string;
  g_uniqueAlbums : list string;
  g_uniqueGenres : list string
}.

Definition group_all (docs : collection) : list totals_group :=
  match docs with
  | [] => []
  | _ =>
      [ {| g_totalSongs := length docs;
           g_uniqueArtists := remove_dups (artist <$> docs);
           g_uniqueAlbums := remove_dups (album <$> docs);
           g_uniqueGenres := remove_dups (genre <$> docs) |} ]
  end.

Definition project_sizes (g : totals_group) : totals :=
  {| t_totalSongs := g_totalSongs g;
     t_totalArtists := length (g_uniqueArtists g);
     t_totalAlbums := length (g_uniqueAlbums g);
     t_totalGenres := length (g_uniqueGenres g) |}.

(** [result[0] || { totalSongs: 0, ... }] *)
Definition Song_getStatistics (docs : collection) : totals :=
  default (mkTotals 0 0 0 0) (head (project_sizes <$> group_all docs)).

(** *** middleware/errorMiddleware.js: [errorHandler]

    What the handler reads of the value it is given.  [thrown_message] is
    [None] for a value that has no [message] (a thrown string, number or
    plain object). *)

Record thrown : Type := mkThrown {
  is_URIError : bool;
  is_SyntaxError : bool;
  thrown_message : option string;
  thrown_status : option nat;
  has_body : bool;
  thrown_statusCode : option nat;
  thrown_code : option string;
  thrown_stack : option string
}.

Record error_answer : Type := mkErrorAnswer {
  answer_status : nat;
  answer_message : string;
  answer_code : string;
  answer_stack : option string
}.

(** [n || fallback] on a number that may be missing: 0 is falsy. *)
Definition nat_or (n : option nat) (fallback : nat) : nat :=
  match n with
  | Some 0 | None => fallback
  | Some n => n
  end.

(** [s || fallback] on a string that may be missing. *)
Definition string_or (s : option string) (fallback : string) : string :=
  match s with
  | Some s => if JsString.truthy s then s else fallback
  | None => fallback
  end.

(** The answer of the handler, or [None] when the handler itself throws:
    [err.message.includes(...)] is evaluated unless [err] is a URIError,
    and is a TypeError on a value without [message]. *)
Definition errorHandler (development : bool) (err : thrown)
  : option error_answer :=
  if is_URIError err
  then Some (mkErrorAnswer 400 "Invalid URL parameter" "INVALID_PARAM" None)
  else
    match thrown_message err with
    | None => None
    | Some message =>
        if JsString.includes "Failed to decode param" message
        then Some (mkErrorAnswer 400 "Invalid URL parameter" "INVALID_PARAM" None)
        else if is_SyntaxError err
                && bool_decide (thrown_status err = Some 400) && has_body err
        then Some (mkErrorAnswer 400 "Invalid JSON format" "INVALID_JSON" None)
        else
          Some (mkErrorAnswer (nat_or (thrown_statusCode err) 500)
                  (string_or (Some message) "Internal server error")
                  (string_or (thrown_code err) "INTERNAL_ERROR")
                  (if development then thrown_stack err else None))
    end.

(** *** Invariants of the stored records (section "Schema" of models/Song.js) *)

(** A text field as the schema wants it: trimmed, not empty, within its
    bound. *)
Definition field_ok (sch : string_schema) (s : string) : Prop :=
  JsString.trim s = s ∧ JsString.truthy s = true
  ∧ (JsString.length s <=? s_max sch) = true.

Definition valid_record (d : Song) : Prop :=
  field_ok title_schema (title d) ∧ field_ok artist_schema (artist d)
  ∧ field_ok album_schema (album d) ∧ field_ok genre_schema (genre d).

Definition stamps_ordered (d : Song) : Prop := (createdAt d ≤ updatedAt d)%Z.

(** Is the answer a success? *)
Definition succeeded (r : response) : bool :=
  match json r with
  | Success _ _ _ => true
  | Failure _ => false
  end.

(** Does the request only read? *)
Definition is_read (req : request) : bool :=
  match req with
  | GET_songs | GET_songs_filter _ | GET_statistics => true
  | _ => false
  end.

(** Status and code of a failure answer. *)
Definition failure_of (r : response) : option (nat * string) :=
  match json r with
  | Success _ _ _ => None
  | Failure e => Some (status r, code e)
  end.

(** A filter whose [genre] condition is an array or an object that
    Mongoose does not cast. *)
Definition uncastable (env : db_env) (req : request) : Prop :=
  ∃ value error,
    req = GET_songs_filter (Some value)
    ∧ (∀ s, value ≠ QString s)
    ∧ cast_condition env value = inl error.

End Backend.

(** ** The front end *)

Module Frontend.

(** *** types/index.ts *)

Record Song : Type := mkSong {
  _id : string;
  title : string;
  artist : string;
  album : string;
  genre : string;
  createdAt : string;
  updatedAt : string
}.

#[global] Instance Song_eq_dec : EqDecision Song.
Proof. solve_decision. Defined.

Record CreateSongDto : Type := mkCreateSongDto {
  dto_title : string;
  dto_artist : string;
  dto_album : string;
  dto_genre : string
}.

(** [Partial<CreateSongDto>] *)
Record UpdateSongDto : Type := mkUpdateSongDto {
  upd_title : option string;
  upd_artist : option string;
  upd_album : option string;
  upd_genre : option string
}.

Record Statistics : Type := mkStatistics {
  totalSongs : nat;
  totalArtists : nat;
  totalAlbums : nat;
  totalGenres : nat;
  songsByGenre : gmap string nat;
  songsByArtist : gmap string nat;
  albumsByArtist : gmap string nat;
  songsByAlbum : gmap string nat
}.

(** *** Actions of the three slices *)

Inductive action : Type :=
| fetchSongsRequest
| fetchSongsSuccess (payload : list Song)
| fetchSongsFailure (payload : string)
| createSongRequest (payload : CreateSongDto)
| createSongSuccess (payload : Song)
| createSongFailure (payload : string)
| updateSongRequest (id : string) (data : UpdateSongDto)
| updateSongSuccess (payload : Song)
| updateSongFailure (payload : string)
| deleteSongRequest (payload : string)
| deleteSongSuccess (payload : string)
| deleteSongFailure (payload : string)
| setSelectedSong (payload : option Song)
| fetchStatisticsRequest
| fetchStatisticsSuccess (payload : Statistics)
| fetchStatisticsFailure (payload : string)
| setGenreFilter (payload : option string)
| clearFilters.

(** [actionCreator.type]: slice name, a slash, reducer name. *)
Definition action_type (a : action) : string :=
  match a with
  | fetchSongsRequest => "songs/fetchSongsRequest"
  | fetchSongsSuccess _ => "songs/fetchSongsSuccess"
  | fetchSongsFailure _ => "songs/fetchSongsFailure"
  | createSongRequest _ => "songs/createSongRequest"
  | createSongSuccess _ => "songs/createSongSuccess"
  | createSongFailure _ => "songs/createSongFailure"
  | updateSongRequest _ _ => "songs/updateSongRequest"
  | updateSongSuccess _ => "songs/updateSongSuccess"
  | updateSongFailure _ => "songs/updateSongFailure"
  | deleteSongRequest _ => "songs/deleteSongRequest"
  | deleteSongSuccess _ => "songs/deleteSongSuccess"
  | deleteSongFailure _ => "songs/deleteSongFailure"
  | setSelectedSong _ => "songs/setSelectedSong"
  | fetchStatisticsRequest => "statistics/fetchStatisticsRequest"
  | fetchStatisticsSuccess _ => "statistics/fetchStatisticsSuccess"
  | fetchStatisticsFailure _ => "statistics/fetchStatisticsFailure"
  | setGenreFilter _ => "filters/setGenreFilter"
  | clearFilters => "filters/clearFilters"
  end.

(** *** store/slices/songsSlice.ts *)

Module songsSlice.

Record SongsState : Type := mkSongsState {
  items : list Song;
  loading : bool;
  error : option string;
  selectedSong : option Song
}.

Definition initialState : SongsState :=
  {| items := []; loading := false; error := None; selectedSong := None |}.

(** [state.items.findIndex(song => song._id === id)] *)
Definition findIndex (id : string) (l : list Song) : option nat :=
  fst <$> list_find (λ song, _id song = id) l.

Definition reducer (state : SongsState) (a : action) : SongsState :=
  match a with
  | fetchSongsRequest
  | createSongRequest _
  | updateSongRequest _ _
  | deleteSongRequest _ =>
      {| items := items state; loading := true; error := None;
         selectedSong := selectedSong state |}
  | fetchSongsSuccess payload =>
      {| items := payload; loading := false; error := error state;
         selectedSong := selectedSong state |}
  | fetchSongsFailure payload
  | createSongFailure payload
  | updateSongFailure payload
  | deleteSongFailure payload =>
      {| items := items state; loading := false; error := Some payload;
         selectedSong := selectedSong state |}
  | createSongSuccess payload =>
      {| items := payload :: items state; loading := false;
         error := error state; selectedSong := selectedSong state |}
  | updateSongSuccess payload =>
      {| items :=
           match findIndex (_id payload) (items state) with
           | Some index => <[index := payload]> (items state)
           | None => items state
           end;
         loading := false; error := error state;
         selectedSong := selectedSong state |}
  | deleteSongSuccess payload =>
      {| items := filter (λ song, _id song ≠ payload) (items state);
         loading := false; error := error state;
         selectedSong := selectedSong state |}
  | setSelectedSong payload =>
      {| items := items state; loading := loading state;
         error := error state; selectedSong := payload |}
  | _ => state
  end.

End songsSlice.

(** *** store/slices/filtersSlice.ts *)

Module filtersSlice.

Record FiltersState : Type := mkFiltersState {
  genre : option string
}.

Definition initialState : FiltersState := {| genre := None |}.

Definition reducer (state : FiltersState) (a : action) : FiltersState :=
  match a with
  | setGenreFilter payload => {| genre := payload |}
  | clearFilters => {| genre := None |}
  | _ => state
  end.

End filtersSlice.

(** *** store/slices/statisticsSlice.ts *)

Module statisticsSlice.

(** Modelled from the spec: the state of statisticsSlice.ts, a file that is
    imported by store.ts, App.tsx and the sagas; App.tsx reads its [data]
    and [loading] fields, and section 3 gives each concern a [loading] and
    an [error] flag next to the last-fetched snapshot. *)
Record StatisticsState : Type := mkStatisticsState {
  data : option Statistics;
  loading : bool;
  error : option string
}.

Definition initialState : StatisticsState :=
  {| data := None; loading := false; error := None |}.

(** Modelled from the spec: the reducers of statisticsSlice.ts, of which
    only the three action creators are visible from the importing files.
    Section 4.5: entering Requesting sets [loading] and clears [error]; a
    query Success replaces the data and resets [loading]; a Failure resets
    [loading] and sets [error], the data being left unchanged. *)
Definition reducer (state : StatisticsState) (a : action) : StatisticsState :=
  match a with
  | fetchStatisticsRequest =>
      {| data := data state; loading := true; error := None |}
  | fetchStatisticsSuccess payload =>
      {| data := Some payload; loading := false; error := error state |}
  | fetchStatisticsFailure payload =>
      {| data := data state; loading := false; error := Some payload |}
  | _ => state
  end.

End statisticsSlice.

(** *** store/store.ts: the combined reducer *)

Record RootState : Type := mkRootState {
  songs : songsSlice.SongsState;
  statistics : statisticsSlice.StatisticsState;
  filters : filtersSlice.FiltersState
}.

Definition initialRootState : RootState :=
  {| songs := songsSlice.initialState;
     statistics := statisticsSlice.initialState;
     filters := filtersSlice.initialState |}.

Definition rootReducer (state : RootState) (a : action) : RootState :=
  {| songs := songsSlice.reducer (songs state) a;
     statistics := statisticsSlice.reducer (statistics state) a;
     filters := filtersSlice.reducer (filters state) a |}.

(** *** api/index.ts: the calls, indexed by the type they resolve with *)

Module api.

Inductive call : Type → Type :=
| fetchSongs : call (list Song)
| createSong (song : CreateSongDto) : call Song
| updateSong (id : string) (song : UpdateSongDto) : call Song
| deleteSong (id : string) : call string
| fetchStatistics : call Statistics
| filterSongsByGenre (genre : string) : call (list Song).

End api.

(** A rejected call throws an object whose [message] may be missing. *)
Record js_error : Type := mkJsError {
  message : option string
}.

(** [error.message || fallback] *)
Definition message_or (e : js_error) (fallback : string) : string :=
  match message e with
  | Some m => if JsString.truthy m then m else fallback
  | None => fallback
  end.

(** *** store/sagas/index.ts

    A saga is a finite tree of [put] and [call] effects; a [call] resumes
    with the value the promise resolves with, or with the error it
    throws. *)

Inductive saga : Type :=
| Done
| Put (a : action) (k : saga)
| Call {T : Type} (c : api.call T) (k : T + js_error → saga).

Definition fetchSongsSaga (a : action) : saga :=
  Call api.fetchSongs (λ r,
    match r with
    | inl songs => Put (fetchSongsSuccess songs) Done
    | inr error =>
        Put (fetchSongsFailure (message_or error "Failed to fetch songs")) Done
    end).

Definition createSongSaga (a : action) : saga :=
  match a with
  | createSongRequest payload =>
      Call (api.createSong payload) (λ r,
        match r with
        | inl song =>
            Put (createSongSuccess song) (Put fetchStatisticsRequest Done)
        | inr error =>
            Put (createSongFailure (message_or error "Failed to create song")) Done
        end)
  | _ => Done
  end.

Definition updateSongSaga (a : action) : saga :=
  match a with
  | updateSongRequest id data =>
      Call (api.updateSong id data) (λ r,
        match r with
        | inl song =>
            Put (updateSongSuccess song) (Put fetchStatisticsRequest Done)
        | inr error =>
            Put (updateSongFailure (message_or error "Failed to update song")) Done
        end)
  | _ => Done
  end.

Definition deleteSongSaga (a : action) : saga :=
  match a with
  | deleteSongRequest payload =>
      Call (api.deleteSong payload) (λ r,
        match r with
        | inl _ =>
            Put (deleteSongSuccess payload) (Put fetchStatisticsRequest Done)
        | inr error =>
            Put (deleteSongFailure (message_or error "Failed to delete song")) Done
        end)
  | _ => Done
  end.

Definition fetchStatisticsSaga (a : action) : saga :=
  Call api.fetchStatistics (λ r,
    match r with
    | inl statistics => Put (fetchStatisticsSuccess statistics) Done
    | inr error =>
        Put (fetchStatisticsFailure
               (message_or error "Failed to fetch statistics")) Done
    end).

(** [if (action.payload)]: neither [null] nor the empty string. *)
Definition payload_truthy (payload : option string) : option string :=
  match payload with
  | Some g => if JsString.truthy g then Some g else None
  | None => None
  end.

Definition filterSongsSaga (a : action) : saga :=
  match a with
  | setGenreFilter payload =>
      match payload_truthy payload with
      | Some g =>
          Put fetchSongsRequest
            (Call (api.filterSongsByGenre g) (λ r,
               match r with
               | inl songs => Put (fetchSongsSuccess songs) Done
               | inr error =>
                   Put (fetchSongsFailure
                          (message_or error "Failed to filter songs")) Done
               end))
      | None => Put fetchSongsRequest Done
      end
  | _ => Done
  end.

(** [takeLatest(pattern, worker)] *)
Record watcher : Type := takeLatest {
  pattern : string;
  worker : action → saga
}.

Definition rootSaga : list watcher :=
  [ takeLatest (action_type fetchSongsRequest) fetchSongsSaga;
    takeLatest "songs/createSongRequest" createSongSaga;
    takeLatest "songs/updateSongRequest" updateSongSaga;
    takeLatest "songs/deleteSongRequest" deleteSongSaga;
    takeLatest (action_type fetchStatisticsRequest) fetchStatisticsSaga;
    takeLatest "filters/setGenreFilter" filterSongsSaga ].

(** *** The saga middleware (redux-saga)

    The network settles a call with a value or with an error. *)
Definition network : Type := ∀ T, api.call T → T + js_error.

(** The actions a saga puts, in order, when its calls settle as the
    network says. *)
Fixpoint puts_of (net : network) (s : saga) : list action :=
  match s with
  | Done => []
  | Put a k => a :: puts_of net k
  | Call c k => puts_of net (k (net _ c))
  end.

(** A call in flight, with the rest of the saga that awaits it. *)
Record pending : Type := mkPending {
  p_type : Type;
  p_call : api.call p_type;
  p_resume : p_type + js_error → saga
}.

(** A forked task; [awaits] is [None] while the task runs. *)
Record task : Type := mkTask {
  task_id : nat;
  awaits : option pending
}.

Section Middleware.
Context {S : Type} (reduce : S → action → S).

(** The store, and for each watcher of [rootSaga] (by position) the task
    of its latest fork, if it has not ended or been cancelled. *)
Record runtime : Type := mkRuntime {
  store : S;
  latest : nat → option task;
  next_task : nat
}.

Definition set_latest (i : nat) (t : option task) (rt : runtime) : runtime :=
  {| store := store rt;
     latest := λ j, if Nat.eqb j i then t else latest rt j;
     next_task := next_task rt |}.

Definition is_current (i tid : nat) (rt : runtime) : bool :=
  match latest rt i with
  | Some t => Nat.eqb (task_id t) tid
  | None => false
  end.

(** Task [tid] of watcher [i] runs [s] up to its next call; a put
    dispatches at once, and a task cancelled by its own put stops. *)
Fixpoint advance (dispatch : action → runtime → runtime) (i tid : nat)
    (s : saga) (rt : runtime) : runtime :=
  match s with
  | Done => set_latest i None rt
  | Put a k =>
      let rt' := dispatch a rt in
      if is_current i tid rt' then advance dispatch i tid k rt' else rt'
  | Call c k => set_latest i (Some (mkTask tid (Some (mkPending _ c k)))) rt
  end.

(** [takeLatest]: the new fork replaces (cancels) the task of the previous
    one. *)
Definition fork (dispatch : action → runtime → runtime) (i : nat)
    (w : watcher) (a : action) (rt : runtime) : runtime :=
  let tid := next_task rt in
  advance dispatch i tid (worker w a)
    {| store := store rt;
       latest := λ j, if Nat.eqb j i then Some (mkTask tid None) else latest rt j;
       next_task := Datatypes.S tid |}.

(** The watchers of [rootSaga], with their positions, whose pattern is the
    type of the action. *)
Definition matching (a : action) : list (nat * watcher) :=
  filter (λ iw, pattern iw.2 = action_type a) (imap pair rootSaga).

(** The reducers run on the store. *)
Definition reduced (a : action) (rt : runtime) : runtime :=
  {| store := reduce (store rt) a; latest := latest rt;
     next_task := next_task rt |}.

(** [store.dispatch(a)]: the reducers, then every watcher whose pattern is
    the type of the action.  [depth] bounds the nesting of dispatches
    inside puts. *)
Fixpoint dispatch (depth : nat) (a : action) (rt : runtime) : runtime :=
  match depth with
  | 0 => reduced a rt
  | Datatypes.S depth' =>
      foldl (λ rt iw, fork (dispatch depth') iw.1 iw.2 a rt)
        (reduced a rt) (matching a)
  end.

(** The call awaited by task [tid] of watcher [i] settles.  Only the task
    of the latest fork is still there to resume. *)
Definition settle (depth : nat) (i tid : nat) (net : network) (rt : runtime)
  : runtime :=
  match latest rt i with
  | Some (mkTask tid' (Some p)) =>
      if Nat.eqb tid' tid
      then advance (dispatch depth) i tid (p_resume p (net _ (p_call p)))
             (set_latest i (Some (mkTask tid None)) rt)
      else rt
  | _ => rt
  end.

End Middleware.

Arguments store {S} r.
Arguments latest {S} r i.
Arguments next_task {S} r.

(** The identifier of the task of watcher [i] whose call is in flight: the
    concern is in its Requesting state. *)
Definition requesting {S} (rt : runtime (S:=S)) (i : nat) : option nat :=
  match latest rt i with
  | Some (mkTask tid (Some _)) => Some tid
  | _ => None
  end.

(** The call in flight for watcher [i], with the saga that awaits it. *)
Definition in_flight {S} (rt : runtime (S:=S)) (i : nat) : option pending :=
  match latest rt i with
  | Some t => awaits t
  | None => None
  end.

(** The middleware before any action. *)
Definition initialRuntime : runtime (S:=RootState) :=
  {| store := initialRootState; latest := λ _, None; next_task := 0 |}.

(** *** Notions used to state the properties *)

(** The three mutation kinds, with the request each one dispatches, the
    position in [rootSaga] of the watcher that takes it, and whether its
    call succeeds on a given network. *)
Inductive mutation : Type :=
| MCreate (payload : CreateSongDto)
| MUpdate (id : string) (data : UpdateSongDto)
| MDelete (id : string).

Definition request_of (m : mutation) : action :=
  match m with
  | MCreate payload => createSongRequest payload
  | MUpdate id data => updateSongRequest id data
  | MDelete id => deleteSongRequest id
  end.

Definition watcher_of (m : mutation) : nat :=
  match m with
  | MCreate _ => 1
  | MUpdate _ _ => 2
  | MDelete _ => 3
  end.

Definition succeeds (net : network) (m : mutation) : bool :=
  match m with
  | MCreate payload =>
      match net _ (api.createSong payload) with inl _ => true | inr _ => false end
  | MUpdate id data =>
      match net _ (api.updateSong id data) with inl _ => true | inr _ => false end
  | MDelete id =>
      match net _ (api.deleteSong id) with inl _ => true | inr _ => false end
  end.

(** The position of the statistics watcher in [rootSaga]. *)
Definition statistics_watcher : nat := 4.

(** A task that awaits the answer to [api.fetchStatistics]. *)
Definition awaits_statistics (t : option task) : Prop :=
  ∃ tid k, t = Some (mkTask tid (Some (mkPending _ api.fetchStatistics k))).

(** The five Failure actions and the concern each belongs to. *)
Inductive failure_kind : Type :=
| FetchSongsFailed
| CreateSongFailed
| UpdateSongFailed
| DeleteSongFailed
| FetchStatisticsFailed.

Definition failure_action (k : failure_kind) (m : string) : action :=
  match k with
  | FetchSongsFailed => fetchSongsFailure m
  | CreateSongFailed => createSongFailure m
  | UpdateSongFailed => updateSongFailure m
  | DeleteSongFailed => deleteSongFailure m
  | FetchStatisticsFailed => fetchStatisticsFailure m
  end.

(** [loading] and [error] of the concern of a Failure action. *)
Definition concern_flags (k : failure_kind) (st : RootState)
  : bool * option string :=
  match k with
  | FetchStatisticsFailed =>
      (statisticsSlice.loading (statistics st),
       statisticsSlice.error (statistics st))
  | _ => (songsSlice.loading (songs st), songsSlice.error (songs st))
  end.

(** A network on which every call is rejected with the same error. *)
Definition rejecting (e : js_error) : network := λ T _, inr e.

(** The items after an update Success. *)
Definition replace_first (updated : Song) (l : list Song) : list Song :=
  match songsSlice.findIndex (_id updated) l with
  | Some index => <[index := updated]> l
  | None => l
  end.

(** *** Sample data *)

(** A network that creates "New Song" and has no statistics to give. *)
Definition sample_network : network :=
  λ T c,
    match c in api.call T return T + js_error with
    | api.fetchSongs => inl []
    | api.createSong song =>
        inl (mkSong "2" (dto_title song) (dto_artist song) (dto_album song)
               (dto_genre song) "" "")
    | api.updateSong id song => inr (mkJsError (Some "Song not found"))
    | api.deleteSong id => inl id
    | api.fetchStatistics => inr (mkJsError None)
    | api.filterSongsByGenre genre => inl []
    end.

Definition mirror_sample : songsSlice.SongsState :=
  {| songsSlice.items :=
       [ mkSong "2" "New Song" "Artist 2" "Album 2" "Pop" "" "";
         mkSong "1" "Song 1" "Artist 1" "Album 1" "Rock" "" "" ];
     songsSlice.loading := true;
     songsSlice.error := None;
     songsSlice.selectedSong := None |}.

(** *** components/SongForm.tsx: [validate] and [handleSubmit] *)

Module SongForm.

(** The [errors] state: one optional message for each field. *)
Record FormErrors : Type := mkFormErrors {
  title_error : option string;
  artist_error : option string;
  album_error : option string;
  genre_error : option string
}.

(** [!s]: the string is empty. *)
Definition blank (s : string) : bool := negb (JsString.truthy s).

Definition validate (formData : CreateSongDto) : FormErrors * bool :=
  let no_title := blank (JsString.trim (dto_title formData)) in
  let no_artist := blank (JsString.trim (dto_artist formData)) in
  let no_album := blank (JsString.trim (dto_album formData)) in
  let no_genre := blank (dto_genre formData) in
  ({| title_error := if no_title then Some "Title is required" else None;
      artist_error := if no_artist then Some "Artist is required" else None;
      album_error := if no_album then Some "Album is required" else None;
      genre_error := if no_genre then Some "Genre is required" else None |},
   negb no_title && negb no_artist && negb no_album && negb no_genre).

(** [if (validate()) onSubmit(formData)]: what is handed to [onSubmit]. *)
Definition handleSubmit (formData : CreateSongDto) : option CreateSongDto :=
  if (validate formData).2 then Some formData else None.

End SongForm.

(** The JSON body that [api.createSong] posts. *)
Definition body_of_dto (song : CreateSongDto) : Backend.payload :=
  {| Backend.p_title := Backend.Str (dto_title song);
     Backend.p_artist := Backend.Str (dto_artist song);
     Backend.p_album := Backend.Str (dto_album song);
     Backend.p_genre := Backend.Str (dto_genre song) |}.

(** The saga that [rootSaga] runs for a mutation request. *)
Definition saga_of (m : mutation) : saga :=
  default Done ((λ w, worker w (request_of m)) <$> rootSaga !! watcher_of m).

(** The positions of the songs watcher and of the filter watcher in
    [rootSaga]. *)
Definition songs_watcher : nat := 0.
Definition filter_watcher : nat := 5.

(** The call a watcher has in flight, without the saga that awaits it. *)
Inductive call_in_flight : Type :=
| NoCall
| CallFetchSongs
| CallFilterSongsByGenre (genre : string)
| CallOther.

Definition call_of {S} (rt : runtime (S:=S)) (i : nat) : call_in_flight :=
  match in_flight rt i with
  | None => NoCall
  | Some p =>
      match p_call p with
      | api.fetchSongs => CallFetchSongs
      | api.filterSongsByGenre genre => CallFilterSongsByGenre genre
      | _ => CallOther
      end
  end.

(** A network that answers the full fetch with two songs and every filter
    with the first of them. *)
Definition catalogue_network : network :=
  λ T c,
    match c in api.call T return T + js_error with
    | api.fetchSongs =>
        inl [ mkSong "1" "Song 1" "Artist 1" "Album 1" "Rock" "" "";
              mkSong "2" "New Song" "Artist 2" "Album 2" "Pop" "" "" ]
    | api.createSong song => inr (mkJsError None)
    | api.updateSong id song => inr (mkJsError None)
    | api.deleteSong id => inr (mkJsError None)
    | api.fetchStatistics => inr (mkJsError None)
    | api.filterSongsByGenre genre =>
        inl [ mkSong "1" "Song 1" "Artist 1" "Album 1" "Rock" "" "" ]
    end.

End Frontend.

(** * Properties of the back end *)

Import Backend.

(** ** The definitions on sample inputs *)

Example trim_sample : JsString.trim "  Rock and  Roll  " = "Rock and  Roll".
Proof. reflexivity. Qed.

Example trim_blank : JsString.trim "   " = "".
Proof. reflexivity. Qed.

(** A no-break space, an ideographic space and a byte order mark are
    stripped like a blank; a zero width space (U+200B) is not. *)
Example trim_unicode :
  JsString.trim (String 160 (String 12288 ("Rock" +:+ String 65279 " "))) = "Rock"
  ∧ JsString.trim (String 8203 "Rock") = String 8203 "Rock".
Proof. by split. Qed.

(** [s.length] counts code units: a character outside the Basic
    Multilingual Plane (here U+1D11E, a surrogate pair) counts for two. *)
Example length_sample :
  JsString.length "Rock" = 4
  ∧ JsString.length (String 55348 (String 56606 EmptyString)) = 2.
Proof. by split. Qed.

Example object_id_sample :
  JsString.matches_object_id "507f1f77bcf86cd799439011" = true
  ∧ JsString.matches_object_id "507f1f77bcf86cd79943901" = false
  ∧ JsString.matches_object_id "507f1f77bcf86cd79943901g" = false.
Proof. by repeat split. Qed.

Example validate_sample :
  songValidationSchema_validate sample_body = inr sample_value.
Proof. reflexivity. Qed.

(** A title that is a no-break space is empty once trimmed, so that it is
    the first violating field; and a genre of seventeen ideographs, which
    is seventeen code units long, is within the bound of 50. *)
Example validate_unicode :
  joi_details
    (violations (mkPayload (Str (String 160 "")) (Str " ") (Str "M") (Str "Rock")))
  = [("title", "Song title is required"); ("artist", "Artist name is required")]
  ∧ createSong (mkPayload (Str (String 160 "")) (Str " ") (Str "M") (Str "Rock"))
    = Ret (validation_failed [("title", "Song title is required")])
  ∧ validate_string genre_schema
      (Str (JsString.of_units (replicate 17 20013%N)))
    = inr (JsString.of_units (replicate 17 20013%N))
  ∧ validate_string genre_schema
      (Str (JsString.of_units (replicate 51 20013%N)))
    = inl (mkDetail "genre" string_max "Genre cannot exceed 50 characters").
Proof. repeat split; vm_compute; reflexivity. Qed.

Example statistics_sample :
  let s := computeStatistics sample_docs in
  (totalSongs s, totalArtists s, totalAlbums s, totalGenres s) = (3, 2, 2, 2)
  ∧ songsByGenre s = {[ "Rock" := 2; "Jazz" := 1 ]}
  ∧ songsByArtist s = {[ "X" := 2; "Y" := 1 ]}
  ∧ songsByAlbum s = {[ "M" := 2; "N" := 1 ]}
  ∧ albumsByArtist s = {[ "X" := 2; "Y" := 1 ]}.
Proof. repeat split; by vm_compute. Qed.

Example scenario_create_then_delete :
  run (createSong sample_body) sample_env []
  = (mkResponse 201
       (Success
          (DataSong
             (mkSong "65a000000000000000000003" "A" "X" "M" "Rock"
                1700000000000 1700000000000))
          None "Song created successfully"),
     [mkSong "65a000000000000000000003" "A" "X" "M" "Rock"
        1700000000000 1700000000000])
  ∧ (run (deleteSong "65A000000000000000000003") sample_env
       [mkSong "65a000000000000000000003" "A" "X" "M" "Rock"
          1700000000000 1700000000000]).2 = []
  ∧ (run getAllSongs sample_env []).1
    = mkResponse 200 (Success (DataSongs []) (Some 0) "No songs found").
Proof. repeat split; by vm_compute. Qed.

Example store_unavailable :
  run_unavailable (StorageError "connection lost") getStatistics
  = fail 500 "Failed to retrieve statistics" "INTERNAL_ERROR"
  ∧ run_unavailable (StorageError "connection lost") (createSong sample_body)
    = fail 500 "Failed to create song" "INTERNAL_ERROR"
  ∧ run_unavailable (StorageError "connection lost") (filterSongs None)
    = fail 400 "Genre query parameter is required" "MISSING_PARAMETER".
Proof. by repeat split. Qed.

(** ** Trimming *)

Lemma rtrim_idem (s : string) : JsString.rtrim (JsString.rtrim s) = JsString.rtrim s.
Proof.
  induction s as [|a s IH]; [done|]. simpl.
  destruct (JsString.rtrim s) as [|b r] eqn:Hr.
  - destruct (JsString.is_space a) eqn:Ha; [done|]. simpl. by rewrite Ha.
  - simpl in IH |- *. by rewrite IH.
Qed.

Lemma rtrim_head (a : code_unit) (s : string) :
  JsString.is_space a = false →
  JsString.rtrim (String a s) = String a (JsString.rtrim s).
Proof. intros Ha. simpl. destruct (JsString.rtrim s); by rewrite ?Ha. Qed.

Lemma ltrim_head (s : string) :
  JsString.ltrim s = EmptyString
  ∨ ∃ a s', JsString.ltrim s = String a s' ∧ JsString.is_space a = false.
Proof.
  induction s as [|a s IH]; [by left|]. simpl.
  destruct (JsString.is_space a) eqn:Ha; [done|]. right. by exists a, s.
Qed.

Lemma trim_idem (s : string) : JsString.trim (JsString.trim s) = JsString.trim s.
Proof.
  unfold JsString.trim. destruct (ltrim_head s) as [->|(a & s' & -> & Ha)]; [done|].
  rewrite rtrim_head by done. simpl JsString.ltrim at 1. rewrite Ha.
  rewrite <-rtrim_head by done. apply rtrim_idem.
Qed.

(** ** Validation *)

Lemma validate_string_ok (sch : string_schema) (v : json_field) (s' : string) :
  validate_string sch v = inr s' →
  (∃ s, v = Str s ∧ s' = JsString.trim s)
  ∧ JsString.truthy s' = true
  ∧ JsString.length s' ≤ s_max sch.
Proof.
  unfold validate_string. destruct v as [|s|]; [done| |done].
  destruct (JsString.truthy (JsString.trim s)) eqn:Ht; simpl; [|done].
  destruct (JsString.length (JsString.trim s) <? 1) eqn:H1; [done|].
  destruct (s_max sch <? JsString.length (JsString.trim s)) eqn:H2; [done|].
  intros [= <-]. apply Nat.ltb_ge in H2. eauto.
Qed.

Lemma truthy_length (s : string) :
  JsString.truthy s = true → 1 ≤ JsString.length s.
Proof. destruct s; [done|]. simpl. unfold JsString.length. simpl. lia. Qed.

Lemma path_errors_ok (sch : string_schema) (v : json_field) (s' : string) :
  validate_string sch v = inr s' →
  JsString.trim s' = s' ∧ path_errors sch s' = [].
Proof.
  intros ((s & -> & ->) & Ht & Hmax)%validate_string_ok. split.
  - apply trim_idem.
  - unfold path_errors. rewrite Ht. simpl.
    pose proof (truthy_length _ Ht) as Hlen.
    destruct (JsString.length (JsString.trim s) <? 1) eqn:H1;
      [apply Nat.ltb_lt in H1; lia|].
    destruct (s_max sch <? JsString.length (JsString.trim s)) eqn:H2;
      [apply Nat.ltb_lt in H2; lia|done].
Qed.

Lemma joi_validate_ok (b : bool) (body : payload) (v : song_value) :
  joi_validate b body = inr v →
  validate_string title_schema (p_title body) = inr (v_title v)
  ∧ validate_string artist_schema (p_artist body) = inr (v_artist v)
  ∧ validate_string album_schema (p_album body) = inr (v_album v)
  ∧ validate_string genre_schema (p_genre body) = inr (v_genre v).
Proof.
  unfold joi_validate.
  destruct (validate_string title_schema _), (validate_string artist_schema _),
    (validate_string album_schema _), (validate_string genre_schema _);
    try done.
  by intros [= <-].
Qed.

(** An accepted body holds four strings, and the value is made of them,
    trimmed. *)
Lemma validated_payload (body : payload) (v : song_value) :
  songValidationSchema_validate body = inr v →
  ∃ t a l g,
    body = mkPayload (Str t) (Str a) (Str l) (Str g)
    ∧ v = mkValue (JsString.trim t) (JsString.trim a) (JsString.trim l)
            (JsString.trim g).
Proof.
  intros (Ht & Ha & Hl & Hg)%joi_validate_ok.
  apply validate_string_ok in Ht as ((t & Hbt & Hvt) & _).
  apply validate_string_ok in Ha as ((a & Hba & Hva) & _).
  apply validate_string_ok in Hl as ((l & Hbl & Hvl) & _).
  apply validate_string_ok in Hg as ((g & Hbg & Hvg) & _).
  exists t, a, l, g. destruct body, v; simpl in *. by subst.
Qed.

(** A value accepted by the Joi schema passes the setters and validators of
    the Mongoose schema unchanged. *)
Lemma joi_value_passes_schema (body : payload) (v : song_value) :
  songValidationSchema_validate body = inr v →
  schema_cast v = v ∧ schema_errors v = [].
Proof.
  intros (Ht & Ha & Hl & Hg)%joi_validate_ok.
  apply path_errors_ok in Ht as [Ht1 Ht2], Ha as [Ha1 Ha2],
    Hl as [Hl1 Hl2], Hg as [Hg1 Hg2].
  split.
  - destruct v; unfold schema_cast; simpl in *. congruence.
  - unfold schema_errors. by rewrite Ht2, Ha2, Hl2, Hg2.
Qed.

(** ** Aggregation *)

Section Aggregation.
Context {D K : Type} `{EqDecision K}.
Implicit Types (key : D → K) (docs : list D).

Lemma group_ids_NoDup key docs : NoDup (group_ids key docs).
Proof. apply NoDup_remove_dups. Qed.

Lemma elem_of_group_ids key docs k :
  k ∈ group_ids key docs ↔ ∃ d, d ∈ docs ∧ key d = k.
Proof.
  unfold group_ids. rewrite elem_of_remove_dups, list_elem_of_fmap.
  split; intros (d & ? & ?); by exists d.
Qed.

Lemma group_sum1_keys key docs : (group_sum1 key docs).*1 = group_ids key docs.
Proof.
  unfold group_sum1. rewrite <-list_fmap_compose.
  rewrite <-(list_fmap_id (group_ids key docs)) at 2.
  by apply list_fmap_ext.
Qed.

Lemma group_sum1_NoDup key docs : NoDup (group_sum1 key docs).*1.
Proof. rewrite group_sum1_keys. apply group_ids_NoDup. Qed.

Lemma elem_of_group_sum1 key docs k n :
  (k, n) ∈ group_sum1 key docs ↔
  k ∈ group_ids key docs ∧ n = length (filter (λ d, key d = k) docs).
Proof.
  unfold group_sum1. rewrite list_elem_of_fmap. split.
  - intros (k' & [= -> ->] & Hk). done.
  - intros [Hk ->]. by exists k.
Qed.

Lemma sum_list_with_plus {A} (f g : A → nat) (l : list A) :
  sum_list_with (λ x, f x + g x) l = sum_list_with f l + sum_list_with g l.
Proof. induction l as [|x l IH]; simpl; lia. Qed.

Lemma sum_indicator (k0 : K) (ks : list K) :
  NoDup ks →
  sum_list_with (λ k, if decide (k0 = k) then 1 else 0) ks
  = if decide (k0 ∈ ks) then 1 else 0.
Proof.
  induction 1 as [|k ks Hk Hnd IH].
  - destruct (decide (k0 ∈ [])) as [Hin|_]; [by apply elem_of_nil in Hin|done].
  - change (sum_list_with _ (k :: ks)) with
      ((if decide (k0 = k) then 1 else 0)
       + sum_list_with (λ k, if decide (k0 = k) then 1 else 0) ks).
    rewrite IH.
    destruct (decide (k0 ∈ ks)) as [Hin|Hin],
      (decide (k0 ∈ k :: ks)) as [Hin'|Hin'], (decide (k0 = k)) as [Heq|Hne];
      try done; try (exfalso; apply Hin'; rewrite elem_of_cons; auto; fail).
    + by subst.
    + apply elem_of_cons in Hin' as [?|?]; done.
Qed.

Lemma sum_list_with_pointwise {A} (f g : A → nat) (l : list A) :
  (∀ x, f x = g x) → sum_list_with f l = sum_list_with g l.
Proof. intros Hfg. induction l as [|x l IH]; simpl; [done|]. by rewrite Hfg, IH. Qed.

Lemma sum_list_with_map {A B} (f : A → B) (g : B → nat) (l : list A) :
  sum_list_with g (f <$> l) = sum_list_with (λ x, g (f x)) l.
Proof. induction l as [|x l IH]; [done|]. csimpl. by rewrite IH. Qed.

(** Every document falls in exactly one group. *)
Lemma sum_over_keys key docs (ks : list K) :
  NoDup ks → (∀ d, d ∈ docs → key d ∈ ks) →
  sum_list_with (λ k, length (filter (λ d, key d = k) docs)) ks = length docs.
Proof.
  intros Hnd. induction docs as [|d docs IH]; intros Hall.
  - rewrite (sum_list_with_pointwise _ (λ _, 0)) by done.
    clear. by induction ks.
  - rewrite (sum_list_with_pointwise _
      (λ k, (if decide (key d = k) then 1 else 0)
            + length (filter (λ d, key d = k) docs))).
    + rewrite sum_list_with_plus, sum_indicator by done.
      rewrite decide_True by (apply Hall; left).
      rewrite IH; [done|]. intros d' Hd'. apply Hall. by right.
    + intros k. rewrite filter_cons. by destruct (decide (key d = k)).
Qed.

Lemma group_sum1_total key docs :
  sum_list_with snd (group_sum1 key docs) = length docs.
Proof.
  unfold group_sum1. rewrite sum_list_with_map. simpl.
  apply sum_over_keys; [apply group_ids_NoDup|].
  intros d Hd. apply elem_of_group_ids. by exists d.
Qed.

End Aggregation.

(** [toMap] on a list of groups with pairwise distinct keys. *)

Lemma toMap_snoc (l : list (string * nat)) (x : string * nat) :
  toMap (l ++ [x]) = <[x.1 := x.2]> (toMap l).
Proof. unfold toMap. by rewrite foldl_snoc. Qed.

Lemma toMap_list_to_map (l : list (string * nat)) :
  NoDup l.*1 → toMap l = list_to_map l.
Proof.
  induction l as [|[k n] l IH] using rev_ind; [done|].
  rewrite fmap_app, NoDup_app. intros (Hl & Hk & _).
  rewrite toMap_snoc, list_to_map_snoc, IH; [done|done|].
  intros Hin. apply (Hk k Hin). left.
Qed.

Lemma toMap_sorted (l : list (string * nat)) :
  NoDup l.*1 → toMap (sort_count_desc l) = list_to_map l.
Proof.
  intros Hnd. unfold sort_count_desc.
  assert (Hp : merge_sort count_desc l ≡ₚ l) by apply merge_sort_Permutation.
  rewrite toMap_list_to_map by (by rewrite Hp).
  apply list_to_map_proper; [by rewrite Hp|done].
Qed.

Section GroupedMaps.
Context {D : Type}.
Implicit Types (key : D → string) (docs : list D).

Lemma filter_nil_iff key docs k :
  length (filter (λ d, key d = k) docs) = 0 ↔ k ∉ group_ids key docs.
Proof.
  rewrite elem_of_group_ids, length_zero_iff_nil. split.
  - intros Hnil (d & Hd & Hk).
    assert (Hin : d ∈ filter (λ d, key d = k) docs)
      by (by apply list_elem_of_filter).
    rewrite Hnil in Hin. by apply elem_of_nil in Hin.
  - intros Hno. destruct (filter _ docs) as [|d l] eqn:Hf; [done|].
    assert (Hin : d ∈ filter (λ d, key d = k) docs) by (rewrite Hf; left).
    apply list_elem_of_filter in Hin as [Hk Hd]. destruct Hno. by exists d.
Qed.

Lemma grouped_lookup key docs k :
  toMap (sort_count_desc (group_sum1 key docs)) !! k
  = count_entry (length (filter (λ d, key d = k) docs)).
Proof.
  rewrite toMap_sorted by apply group_sum1_NoDup. unfold count_entry.
  destruct (decide (length (filter (λ d, key d = k) docs) = 0)) as [Hz|Hnz].
  - apply not_elem_of_list_to_map_1. rewrite group_sum1_keys.
    by apply filter_nil_iff.
  - apply elem_of_list_to_map_1; [apply group_sum1_NoDup|].
    apply elem_of_group_sum1. split; [|done].
    destruct (decide (k ∈ group_ids key docs)) as [|Hout]; [done|].
    by apply filter_nil_iff in Hout.
Qed.

Lemma grouped_sum key docs :
  sum_values (toMap (sort_count_desc (group_sum1 key docs))) = length docs.
Proof.
  rewrite toMap_sorted by apply group_sum1_NoDup. unfold sum_values.
  rewrite map_to_list_to_map by apply group_sum1_NoDup.
  apply group_sum1_total.
Qed.

End GroupedMaps.

Lemma count_stage_length {A} (l : list A) : first_count (count_stage l) = length l.
Proof. by destruct l. Qed.

Section Distinct.
Context {D K : Type} `{Countable K}.

Lemma distinct_count (key : D → K) (docs : list D) :
  first_count (count_stage (group_ids key docs))
  = size (list_to_set (key <$> docs) : gset K).
Proof.
  rewrite count_stage_length. unfold group_ids.
  rewrite <-(size_list_to_set (C:=gset K)) by apply NoDup_remove_dups.
  f_equal. apply set_eq. intros k.
  by rewrite !elem_of_list_to_set, elem_of_remove_dups.
Qed.

Lemma distinct_filtered (P : K → Prop) `{∀ k, Decision (P k)} (l : list K) :
  length (filter P (remove_dups l)) = size (list_to_set (filter P l) : gset K).
Proof.
  rewrite <-(size_list_to_set (C:=gset K))
    by (apply NoDup_filter, NoDup_remove_dups).
  f_equal. apply set_eq. intros k.
  by rewrite !elem_of_list_to_set, !list_elem_of_filter, elem_of_remove_dups.
Qed.

End Distinct.

(** ** Statistics accuracy *)

Lemma run_getStatistics (env : db_env) (docs : collection) :
  run getStatistics env docs
  = (mkResponse 200
       (Success (DataStatistics (computeStatistics docs)) None
          "Statistics retrieved successfully"), docs).
Proof. reflexivity. Qed.

Lemma albumsByArtist_lookup (docs : collection) (a : string) :
  albumsByArtist (computeStatistics docs) !! a
  = count_entry
      (size (list_to_set (filter (λ p, p.1 = a) (artist_album <$> docs))
             : gset (string * string))).
Proof.
  unfold computeStatistics, formattedStats, statistics_pipeline; simpl.
  rewrite grouped_lookup. f_equal. unfold group_ids.
  apply (distinct_filtered (λ p : string * string, p.1 = a)).
Qed.

(** C1. For any record set, [getStatistics] answers with [totalSongs] equal
    to the number of records, [totalArtists], [totalAlbums] and
    [totalGenres] equal to the number of distinct artist, album and genre
    values; each of [songsByGenre], [songsByArtist] and [songsByAlbum] maps
    a key to the number of records carrying it (a key without record being
    absent), so that its values sum to the number of records; and
    [albumsByArtist] maps each artist to the number of distinct
    (artist, album) pairs of that artist. *)
Theorem getStatistics_accuracy (env : db_env) (docs : collection) :
  let s := computeStatistics docs in
  run getStatistics env docs
  = (mkResponse 200
       (Success (DataStatistics s) None "Statistics retrieved successfully"),
     docs)
  ∧ totalSongs s = length docs
  ∧ totalArtists s = size (list_to_set (artist <$> docs) : gset string)
  ∧ totalAlbums s = size (list_to_set (album <$> docs) : gset string)
  ∧ totalGenres s = size (list_to_set (genre <$> docs) : gset string)
  ∧ (∀ g, songsByGenre s !! g
          = count_entry (length (filter (λ d, genre d = g) docs)))
  ∧ sum_values (songsByGenre s) = length docs
  ∧ (∀ a, songsByArtist s !! a
          = count_entry (length (filter (λ d, artist d = a) docs)))
  ∧ sum_values (songsByArtist s) = length docs
  ∧ (∀ b, songsByAlbum s !! b
          = count_entry (length (filter (λ d, album d = b) docs)))
  ∧ sum_values (songsByAlbum s) = length docs
  ∧ (∀ a, albumsByArtist s !! a
          = count_entry
              (size (list_to_set
                       (filter (λ p, p.1 = a) (artist_album <$> docs))
                     : gset (string * string)))).
Proof.
  intros s. subst s. split; [apply run_getStatistics|].
  unfold computeStatistics, formattedStats, statistics_pipeline; simpl.
  repeat split.
  - apply count_stage_length.
  - apply distinct_count.
  - apply distinct_count.
  - apply distinct_count.
  - intros g. apply grouped_lookup.
  - apply grouped_sum.
  - intros a. apply grouped_lookup.
  - apply grouped_sum.
  - intros b. apply grouped_lookup.
  - apply grouped_sum.
  - intros a. apply albumsByArtist_lookup.
Qed.

(** ** The store under create, update and delete *)

Lemma run_createSong_valid (env : db_env) (docs : collection)
    (body : payload) (v : song_value) :
  songValidationSchema_validate body = inr v →
  run (createSong body) env docs
  = (mkResponse 201
       (Success (DataSong (new_document env v)) None "Song created successfully"),
     docs ++ [new_document env v]).
Proof.
  intros Hv. destruct (joi_value_passes_schema _ _ Hv) as [Hcast Herr].
  unfold createSong. rewrite Hv. simpl. by rewrite Hcast, Herr.
Qed.

Lemma find_by_id_split (id : string) (docs : collection) (d : Song) :
  find_by_id id docs = Some d →
  ∃ l1 l2, docs = l1 ++ d :: l2 ∧ has_id id d = true
           ∧ remove_by_id id docs = l1 ++ l2
           ∧ ∀ f, update_by_id id f docs = l1 ++ f d :: l2.
Proof.
  induction docs as [|x docs IH]; [done|]. simpl.
  destruct (has_id id x) eqn:Hx.
  - intros [= ->]. by exists [], docs.
  - intros Hfind. destruct (IH Hfind) as (l1 & l2 & -> & Hd & Hrm & Hup).
    exists (x :: l1), l2. rewrite Hrm. repeat split; [done|].
    intros f. by rewrite Hup.
Qed.

Lemma find_by_id_None (id : string) (docs : collection) :
  find_by_id id docs = None →
  remove_by_id id docs = docs ∧ ∀ f, update_by_id id f docs = docs.
Proof.
  induction docs as [|x docs IH]; [done|]. simpl.
  destruct (has_id id x) eqn:Hx; [done|].
  intros Hfind. destruct (IH Hfind) as [Hrm Hup].
  split; [by rewrite Hrm|]. intros f. by rewrite Hup.
Qed.

Lemma find_by_id_first (id : string) (docs : collection) (d : Song) :
  find_by_id id docs = Some d →
  ∃ l1 l2, docs = l1 ++ d :: l2 ∧ _id d = cast_object_id id
           ∧ (∀ x, x ∈ l1 → _id x ≠ cast_object_id id)
           ∧ ∀ f, update_by_id id f docs = l1 ++ f d :: l2.
Proof.
  induction docs as [|x docs IH]; [done|]. simpl.
  destruct (has_id id x) eqn:Hx.
  - intros [= ->]. exists [], docs. split_and!; [done| |..].
    + by apply bool_decide_eq_true in Hx.
    + intros y Hy. by apply elem_of_nil in Hy.
    + done.
  - intros Hfind. destruct (IH Hfind) as (l1 & l2 & -> & Hd & Hl1 & Hup).
    apply bool_decide_eq_false in Hx.
    exists (x :: l1), l2. split_and!; [done|done| |].
    + intros y [->|Hy]%elem_of_cons; [done|by apply Hl1].
    + intros f. by rewrite Hup.
Qed.

Lemma find_by_id_absent (id : string) (docs : collection) :
  find_by_id id docs = None → ∀ x, x ∈ docs → _id x ≠ cast_object_id id.
Proof.
  induction docs as [|y docs IH]; simpl; intros Hfind x Hx.
  - by apply elem_of_nil in Hx.
  - unfold has_id in Hfind. case_bool_decide as Hy; [done|].
    apply elem_of_cons in Hx as [->|Hx]; [done|by apply IH].
Qed.

Lemma run_deleteSong_found (env : db_env) (docs : collection)
    (id : string) (d : Song) :
  JsString.matches_object_id id = true →
  find_by_id id docs = Some d →
  run (deleteSong id) env docs
  = (mkResponse 200 (Success (DataSong d) None "Song deleted successfully"),
     remove_by_id id docs).
Proof. intros Hid Hd. unfold deleteSong. rewrite Hid. simpl. by rewrite Hd. Qed.

(** ** Statistics reactivity *)

Lemma songsByGenre_count (docs : collection) (g : string) :
  count_of (songsByGenre (computeStatistics docs)) g
  = length (filter (λ d, genre d = g) docs).
Proof.
  unfold count_of, computeStatistics, formattedStats, statistics_pipeline; simpl.
  rewrite grouped_lookup. unfold count_entry. by case_decide.
Qed.

Lemma songsByGenre_entry (docs : collection) (g : string) :
  songsByGenre (computeStatistics docs) !! g
  = count_entry (length (filter (λ d, genre d = g) docs)).
Proof. apply grouped_lookup. Qed.

Lemma genre_count_insert (l1 l2 : collection) (r : Song) (g : string) :
  length (filter (λ d, genre d = g) (l1 ++ r :: l2))
  = length (filter (λ d, genre d = g) (l1 ++ l2))
    + (if decide (genre r = g) then 1 else 0).
Proof.
  rewrite !filter_app, filter_cons, !length_app.
  destruct (decide (genre r = g)); simpl; lia.
Qed.

(** C8. For every record set, the empty one included: creating a record
    through [createSong] appends one record whose genre G is the trimmed
    genre of the payload, and makes the recomputed [songsByGenre] entry of
    G exactly one greater than before (an absent key counting as 0), the
    other genres staying as they were; the same holds of any record added
    to the collection; and deleting a stored record through [deleteSong]
    makes the entry of its genre exactly one smaller, the key being absent
    when the count reaches 0. *)
Theorem statistics_reactivity (env : db_env) (docs : collection) :
  let before := songsByGenre (computeStatistics docs) in
  (∀ body v,
     songValidationSchema_validate body = inr v →
     let created := (run (createSong body) env docs).2 in
     status (run (createSong body) env docs).1 = 201
     ∧ (∃ inserted g,
          created = docs ++ [inserted] ∧ p_genre body = Str g
          ∧ genre inserted = JsString.trim g ∧ v_genre v = JsString.trim g)
     ∧ count_of (songsByGenre (computeStatistics created)) (v_genre v)
       = count_of before (v_genre v) + 1
     ∧ songsByGenre (computeStatistics created) !! v_genre v
       = Some (count_of before (v_genre v) + 1)
     ∧ ∀ g, g ≠ v_genre v →
            songsByGenre (computeStatistics created) !! g = before !! g)
  ∧ (∀ inserted,
       songsByGenre (computeStatistics (docs ++ [inserted])) !! genre inserted
       = Some (count_of before (genre inserted) + 1)
       ∧ ∀ g, g ≠ genre inserted →
              songsByGenre (computeStatistics (docs ++ [inserted])) !! g
              = before !! g)
  ∧ (∀ id d,
       JsString.matches_object_id id = true →
       find_by_id id docs = Some d →
       let deleted := (run (deleteSong id) env docs).2 in
       status (run (deleteSong id) env docs).1 = 200
       ∧ d ∈ docs
       ∧ length docs = length deleted + 1
       ∧ count_of before (genre d)
         = count_of (songsByGenre (computeStatistics deleted)) (genre d) + 1
       ∧ songsByGenre (computeStatistics deleted) !! genre d
         = count_entry (count_of before (genre d) - 1)
       ∧ ∀ g, g ≠ genre d →
              songsByGenre (computeStatistics deleted) !! g = before !! g).
Proof.
  intros before. subst before.
  assert (Hins : ∀ r g,
    length (filter (λ d, genre d = g) (docs ++ [r]))
    = length (filter (λ d, genre d = g) docs)
      + (if decide (genre r = g) then 1 else 0)).
  { intros r g. rewrite genre_count_insert. by rewrite app_nil_r. }
  assert (Hadd : ∀ r,
    songsByGenre (computeStatistics (docs ++ [r])) !! genre r
    = Some (count_of (songsByGenre (computeStatistics docs)) (genre r) + 1)
    ∧ ∀ g, g ≠ genre r →
           songsByGenre (computeStatistics (docs ++ [r])) !! g
           = songsByGenre (computeStatistics docs) !! g).
  { intros r. split.
    - rewrite songsByGenre_entry, songsByGenre_count, Hins.
      rewrite decide_True by done. unfold count_entry.
      rewrite decide_False by lia. done.
    - intros g Hg. rewrite !songsByGenre_entry, Hins.
      rewrite decide_False by done. by rewrite Nat.add_0_r. }
  split; [|split].
  - intros body v Hv created. subst created.
    rewrite (run_createSong_valid _ _ _ _ Hv). cbn [fst snd status].
    destruct (joi_validate_ok _ _ _ Hv) as (_ & _ & _ & Hg).
    apply validate_string_ok in Hg as ((g & Hbody & Hgenre) & _).
    destruct (Hadd (new_document env v)) as [Hsame Hother].
    cbn [new_document genre] in Hsame, Hother.
    split; [done|]. split; [by exists (new_document env v), g|].
    split; [|split; [exact Hsame|exact Hother]].
    unfold count_of at 1. by rewrite Hsame.
  - exact Hadd.
  - intros id d Hid Hd deleted. subst deleted.
    rewrite (run_deleteSong_found _ _ _ _ Hid Hd). cbn [fst snd status].
    destruct (find_by_id_split _ _ _ Hd) as (l1 & l2 & -> & _ & -> & _).
    assert (Hdel : ∀ g,
      length (filter (λ x, genre x = g) (l1 ++ d :: l2))
      = length (filter (λ x, genre x = g) (l1 ++ l2))
        + (if decide (genre d = g) then 1 else 0)).
    { intros g. apply genre_count_insert. }
    split; [done|]. split; [apply elem_of_app; right; by left|].
    split; [rewrite !length_app; simpl; lia|]. split; [|split].
    + rewrite !songsByGenre_count, Hdel. by rewrite decide_True.
    + rewrite songsByGenre_entry, songsByGenre_count, Hdel.
      rewrite decide_True by done. f_equal. lia.
    + intros g Hg. rewrite !songsByGenre_entry, Hdel.
      rewrite decide_False by done. by rewrite Nat.add_0_r.
Qed.

Lemma statistics_reactivity_witness :
  (songValidationSchema_validate sample_body = inr sample_value
   ∧ songsByGenre (computeStatistics []) !! "Rock" = None
   ∧ songsByGenre
       (computeStatistics (run (createSong sample_body) sample_env []).2)
     !! "Rock"
     = Some 1)
  ∧ (JsString.matches_object_id "65a000000000000000000001" = true
     ∧ find_by_id "65a000000000000000000001" sample_docs = Some rock_b
     ∧ count_of (songsByGenre (computeStatistics sample_docs)) "Rock"
       = count_of
           (songsByGenre
              (computeStatistics
                 (run (deleteSong "65a000000000000000000001") sample_env
                    sample_docs).2))
           "Rock" + 1).
Proof.
  assert (H1 : songValidationSchema_validate sample_body = inr sample_value)
    by reflexivity.
  assert (H2 : JsString.matches_object_id "65a000000000000000000001" = true)
    by reflexivity.
  assert (H3 : find_by_id "65a000000000000000000001" sample_docs = Some rock_b)
    by reflexivity.
  split.
  - destruct (statistics_reactivity sample_env []) as [Hins _].
    destruct (Hins sample_body sample_value H1) as (_ & _ & _ & Hentry & _).
    split; [exact H1|]. split; [reflexivity|]. exact Hentry.
  - destruct (statistics_reactivity sample_env sample_docs) as (_ & _ & Hdel).
    destruct (Hdel "65a000000000000000000001" rock_b H2 H3)
      as (_ & _ & _ & Hcount & _).
    split; [exact H2|]. split; [exact H3|]. exact Hcount.
Defined.

(** ** Filtering by genre *)

Lemma run_filterSongs (env : db_env) (docs : collection) (g : string) :
  JsString.truthy g = true →
  run (filterSongs (Some (QString g))) env docs
  = (mkResponse 200
       (Success (DataSongs (find_sorted (QGenre (JsString.trim g)) docs))
          (Some (length (find_sorted (QGenre (JsString.trim g)) docs)))
          (if decide (length (find_sorted (QGenre (JsString.trim g)) docs) = 0)
           then "No songs found for genre: " +:+ g
           else "Songs filtered by genre: " +:+ g)),
     docs).
Proof. intros Hg. unfold filterSongs. simpl. by rewrite Hg. Qed.

Lemma run_filterSongs_store (env : db_env) (docs : collection)
    (g : option query_value) :
  (run (filterSongs g) env docs).2 = docs.
Proof.
  destruct g as [v|]; [|done]. unfold filterSongs.
  destruct (query_truthy v); [|done]. cbn [negb run exec_op].
  by destruct (cast_filter env (ByGenre v)).
Qed.

Lemma find_sorted_genre (docs : collection) (g : string) :
  find_sorted (QGenre g) docs ≡ₚ filter (λ d, genre d = g) docs
  ∧ Sorted created_desc (find_sorted (QGenre g) docs).
Proof.
  unfold find_sorted. split; [|apply (Sorted_merge_sort created_desc)].
  rewrite merge_sort_Permutation.
  assert (Hf : filter (λ d, query_matches (QGenre g) d = true) docs
               = filter (λ d, genre d = g) docs); [|by rewrite Hf].
  apply list_filter_iff. intros d. simpl. by rewrite bool_decide_eq_true.
Qed.

(** C2 (as stated) fails: with one stored record of genre "Rock", the
    request for "rock" answers with no record although "rock" occurs in
    "Rock" case-insensitively; and two "Rock" records come back most recent
    first, which is not their order by title. *)
Lemma filterSongs_not_substring_by_title :
  spec_findByGenre "rock" [rock_a] = [rock_a]
  ∧ run (filterSongs (Some (QString "rock"))) sample_env [rock_a]
    = (mkResponse 200
         (Success (DataSongs []) (Some 0) "No songs found for genre: rock"),
       [rock_a])
  ∧ spec_findByGenre "Rock" [rock_a; rock_b] = [rock_a; rock_b]
  ∧ run (filterSongs (Some (QString "Rock"))) sample_env [rock_a; rock_b]
    = (mkResponse 200
         (Success (DataSongs [rock_b; rock_a]) (Some 2)
            "Songs filtered by genre: Rock"),
       [rock_a; rock_b]).
Proof. repeat split; vm_compute; reflexivity. Qed.

(** C2 (amended). For every stored record set and every non-empty genre
    string G, [filterSongs] succeeds with exactly the records whose genre
    equals G once the white space at both ends of G is removed (the whole
    string, case-sensitively), each as often as it is stored, ordered by
    creation time, most recent first, and leaves the store unchanged. *)
Theorem filterSongs_exact_by_recency (env : db_env) (docs : collection)
    (g : string) :
  JsString.truthy g = true →
  ∃ songs msg,
    run (filterSongs (Some (QString g))) env docs
    = (mkResponse 200 (Success (DataSongs songs) (Some (length songs)) msg),
       docs)
    ∧ songs ≡ₚ filter (λ d, genre d = JsString.trim g) docs
    ∧ Sorted created_desc songs.
Proof.
  intros Hg. eexists _, _. split; [by apply run_filterSongs|].
  apply find_sorted_genre.
Qed.

Lemma filterSongs_exact_by_recency_witness :
  JsString.truthy " Rock " = true
  ∧ ∃ songs msg,
      run (filterSongs (Some (QString " Rock "))) sample_env sample_docs
      = (mkResponse 200 (Success (DataSongs songs) (Some (length songs)) msg),
         sample_docs)
      ∧ songs ≡ₚ filter (λ d, genre d = JsString.trim " Rock ") sample_docs
      ∧ Sorted created_desc songs.
Proof.
  split; [reflexivity|].
  apply (filterSongs_exact_by_recency sample_env sample_docs " Rock ").
  reflexivity.
Defined.

(** C10. A filter request whose [genre] parameter is the empty string fails
    with MISSING_PARAMETER exactly as one without the parameter; in both
    cases the controller answers without issuing any store operation. *)
Theorem filterSongs_empty_genre :
  filterSongs (Some (QString ""))
  = Ret (fail 400 "Genre query parameter is required" "MISSING_PARAMETER")
  ∧ filterSongs None = filterSongs (Some (QString ""))
  ∧ reaches_store (filterSongs (Some (QString ""))) = false
  ∧ reaches_store (filterSongs None) = false
  ∧ ∀ env docs,
      run (filterSongs (Some (QString ""))) env docs
      = (fail 400 "Genre query parameter is required" "MISSING_PARAMETER", docs)
      ∧ run (filterSongs None) env docs
        = (fail 400 "Genre query parameter is required" "MISSING_PARAMETER", docs).
Proof. by repeat split. Qed.

(** ** Validation failures *)

Lemma violations_nil_iff (body : payload) :
  violations body = [] ↔ ∃ v, songValidationSchema_validate body = inr v.
Proof.
  unfold violations, songValidationSchema_validate, joi_validate.
  destruct (validate_string title_schema _), (validate_string artist_schema _),
    (validate_string album_schema _), (validate_string genre_schema _);
    simpl; split; try done; try (by intros [? [=]]); eauto.
Qed.

Lemma validate_invalid (body : payload) :
  violations body ≠ [] →
  songValidationSchema_validate body = inl (take 1 (violations body)).
Proof.
  unfold violations, songValidationSchema_validate, joi_validate.
  by destruct (validate_string title_schema _), (validate_string artist_schema _),
    (validate_string album_schema _), (validate_string genre_schema _).
Qed.

(** C3 (the code at the failing input). The body [two_violations] has
    neither a title nor a non-blank artist, so two fields violate the
    schema, and validation with [abortEarly: false] would report both; the
    details of the VALIDATION_ERROR answer of both [createSong] and
    [updateSong] name the title only.  The branch of the same controllers
    that answers a Mongoose ValidationError hands on the errors of every
    failing path. *)
Theorem details_omit_second_violation :
  joi_details (violations two_violations)
  = [("title", "Song title is required"); ("artist", "Artist name is required")]
  ∧ joi_validate false two_violations = inl (violations two_violations)
  ∧ createSong two_violations
    = Ret (validation_failed [("title", "Song title is required")])
  ∧ updateSong "65a000000000000000000001" two_violations
    = Ret (validation_failed [("title", "Song title is required")])
  ∧ schema_errors (mkValue "" "" "M" "Rock")
    = [("title", "Song title is required"); ("artist", "Artist name is required")]
  ∧ ∀ errors,
      run_unavailable (ValidationError errors) (createSong sample_body)
      = validation_failed errors.
Proof. repeat split; vm_compute; reflexivity. Qed.

(** Whatever the payload, the details of a VALIDATION_ERROR answer to a
    payload with invalid fields hold one entry, the one of the first
    violating field in the order title, artist, album, genre. *)
Lemma validation_stops_at_first_violation (body : payload) (id : string) :
  violations body ≠ [] →
  JsString.matches_object_id id = true →
  ∃ first,
    head (violations body) = Some first
    ∧ createSong body
      = Ret (validation_failed [(d_path first, d_message first)])
    ∧ updateSong id body
      = Ret (validation_failed [(d_path first, d_message first)]).
Proof.
  intros Hbad Hid. pose proof (validate_invalid _ Hbad) as Hv.
  destruct (violations body) as [|first rest] eqn:Hvs; [done|].
  exists first. split; [done|].
  unfold createSong, updateSong. rewrite Hid, Hv. by simpl.
Qed.

(** ** Update *)

Lemma run_updateSong_valid (env : db_env) (docs : collection)
    (id : string) (body : payload) (v : song_value) :
  JsString.matches_object_id id = true →
  songValidationSchema_validate body = inr v →
  run (updateSong id body) env docs
  = match find_by_id id docs with
    | None => (fail 404 "Song not found" "SONG_NOT_FOUND", docs)
    | Some d =>
        (mkResponse 200
           (Success (DataSong (apply_update env v d)) None
              "Song updated successfully"),
         update_by_id id (apply_update env v) docs)
    end.
Proof.
  intros Hid Hv. destruct (joi_value_passes_schema _ _ Hv) as [Hcast Herr].
  unfold updateSong. rewrite Hid, Hv. simpl. rewrite Hcast, Herr.
  destruct (find_by_id id docs) as [d|] eqn:Hd; simpl; [done|].
  by destruct (find_by_id_None _ _ Hd) as [_ ->].
Qed.

(** C5. An update request is decided in this order: an identifier that is
    not 24 hexadecimal digits yields INVALID_ID whatever the payload, and
    an invalid payload then yields VALIDATION_ERROR, both without any store
    operation and with the store unchanged; otherwise the payload holds
    four strings, and SONG_NOT_FOUND is answered, the store unchanged, when
    no record has the identifier; else the first record of the store with
    that identifier is replaced, at its place, by a record with the same
    identifier and creation time, the four trimmed strings of the payload
    as its text fields and the current time as [updatedAt], every other
    record staying as it is, and the new record is returned. *)
Theorem updateSong_decision_order (env : db_env) (docs : collection)
    (id : string) (body : payload) :
  (reaches_store (updateSong id body)
   = JsString.matches_object_id id
     && bool_decide (violations body = []))
  ∧ if negb (JsString.matches_object_id id)
    then run (updateSong id body) env docs
         = (fail 400 "Invalid song ID format" "INVALID_ID", docs)
    else
      match songValidationSchema_validate body with
      | inl error =>
          run (updateSong id body) env docs
          = (validation_failed (joi_details error), docs)
      | inr value =>
          (∃ t a l g,
             body = mkPayload (Str t) (Str a) (Str l) (Str g)
             ∧ value = mkValue (JsString.trim t) (JsString.trim a)
                         (JsString.trim l) (JsString.trim g))
          ∧ ((∀ x, x ∈ docs → _id x ≠ cast_object_id id)
             ∧ run (updateSong id body) env docs
               = (fail 404 "Song not found" "SONG_NOT_FOUND", docs)
             ∨ ∃ l1 d l2 updated,
                 docs = l1 ++ d :: l2
                 ∧ _id d = cast_object_id id
                 ∧ (∀ x, x ∈ l1 → _id x ≠ cast_object_id id)
                 ∧ updated
                   = {| _id := _id d;
                        title := v_title value;
                        artist := v_artist value;
                        album := v_album value;
                        genre := v_genre value;
                        createdAt := createdAt d;
                        updatedAt := now env |}
                 ∧ run (updateSong id body) env docs
                   = (mkResponse 200
                        (Success (DataSong updated) None
                           "Song updated successfully"),
                      l1 ++ updated :: l2))
      end.
Proof.
  destruct (JsString.matches_object_id id) eqn:Hid; simpl.
  - destruct (songValidationSchema_validate body) as [errs|v] eqn:Hv.
    + split; [|by unfold updateSong; rewrite Hid, Hv].
      unfold updateSong. rewrite Hid, Hv. simpl. symmetry.
      apply bool_decide_eq_false. intros [v Hv']%violations_nil_iff. congruence.
    + split.
      { unfold updateSong. rewrite Hid, Hv. simpl. symmetry.
        apply bool_decide_eq_true, violations_nil_iff. eauto. }
      split; [by apply validated_payload|].
      rewrite (run_updateSong_valid _ _ _ _ _ Hid Hv).
      destruct (find_by_id id docs) as [d|] eqn:Hd.
      * right.
        destruct (find_by_id_first _ _ _ Hd) as (l1 & l2 & -> & Hidd & Hl1 & Hup).
        exists l1, d, l2, (apply_update env v d). by rewrite Hup.
      * left. split; [by apply find_by_id_absent|done].
  - unfold updateSong. by rewrite Hid.
Qed.

(** * Further properties of the back end *)

(** ** Reading the collection *)

Lemma filter_QAll (docs : collection) :
  filter (λ d, query_matches QAll d = true) docs = docs.
Proof.
  induction docs as [|d docs IH]; [done|].
  rewrite filter_cons, decide_True by done. by rewrite IH.
Qed.

Lemma find_sorted_QAll (docs : collection) :
  find_sorted QAll docs ≡ₚ docs ∧ Sorted created_desc (find_sorted QAll docs).
Proof.
  unfold find_sorted. rewrite filter_QAll.
  split; [apply merge_sort_Permutation|apply (Sorted_merge_sort created_desc)].
Qed.

(** X1. [getAllSongs] answers 200 with every stored record exactly once,
    most recently created first, with [count] the number of stored
    records and the message "No songs found" exactly when the store is
    empty; the store is left as it was. *)
Theorem getAllSongs_lists_every_record (env : db_env) (docs : collection) :
  ∃ songs,
    run getAllSongs env docs
    = (mkResponse 200
         (Success (DataSongs songs) (Some (length docs))
            (if decide (docs = []) then "No songs found"
             else "Songs retrieved successfully")),
       docs)
    ∧ songs ≡ₚ docs
    ∧ Sorted created_desc songs.
Proof.
  exists (find_sorted QAll docs).
  destruct (find_sorted_QAll docs) as [Hp Hs]. split; [|done].
  unfold getAllSongs. cbn [run exec_op cast_filter fst snd].
  rewrite (Permutation_length Hp).
  destruct docs as [|d docs]; [done|].
  rewrite decide_False by done. by rewrite decide_False.
Qed.

(** ** Deleting *)

Lemma find_by_id_None_iff (id : string) (docs : collection) :
  find_by_id id docs = None ↔ Forall (λ d, has_id id d = false) docs.
Proof.
  induction docs as [|d docs IH]; simpl.
  - split; [by constructor|done].
  - rewrite Forall_cons. destruct (has_id id d); [|by rewrite IH; intuition].
    split; [done|]. by intros [? _].
Qed.

Lemma find_by_id_has_id (id : string) (docs : collection) (d : Song) :
  find_by_id id docs = Some d → d ∈ docs ∧ _id d = cast_object_id id.
Proof.
  intros (l1 & l2 & -> & Hid & _)%find_by_id_split. split.
  - apply elem_of_app. right. left.
  - unfold has_id in Hid. by apply bool_decide_eq_true in Hid.
Qed.

Lemma remove_by_id_sublist (id : string) (docs : collection) :
  remove_by_id id docs `sublist_of` docs.
Proof.
  induction docs as [|d docs IH]; simpl; [done|].
  destruct (has_id id d); [by apply sublist_cons|by apply sublist_skip].
Qed.

(** X2. A delete request is decided in this order: an identifier that is
    not 24 hexadecimal digits yields 400 INVALID_ID without any store
    operation; otherwise 404 SONG_NOT_FOUND when no record has the
    identifier, the store being left as it was; otherwise the record is
    returned with 200 and the store keeps all its other records, in their
    order, and is one record shorter. *)
Theorem deleteSong_decision_order (env : db_env) (docs : collection)
    (id : string) :
  reaches_store (deleteSong id) = JsString.matches_object_id id
  ∧ run (deleteSong id) env docs
    = (if negb (JsString.matches_object_id id)
       then (fail 400 "Invalid song ID format" "INVALID_ID", docs)
       else
         match find_by_id id docs with
         | None => (fail 404 "Song not found" "SONG_NOT_FOUND", docs)
         | Some d =>
             (mkResponse 200
                (Success (DataSong d) None "Song deleted successfully"),
              remove_by_id id docs)
         end)
  ∧ remove_by_id id docs `sublist_of` docs
  ∧ length (remove_by_id id docs)
    + match find_by_id id docs with Some _ => 1 | None => 0 end = length docs.
Proof.
  split; [|split; [|split]].
  - unfold deleteSong. by destruct (JsString.matches_object_id id).
  - unfold deleteSong. destruct (JsString.matches_object_id id); [|done].
    cbn [negb run exec_op fst snd].
    destruct (find_by_id id docs) as [d|] eqn:Hd; [done|].
    by destruct (find_by_id_None _ _ Hd) as [-> _].
  - apply remove_by_id_sublist.
  - destruct (find_by_id id docs) as [d|] eqn:Hd.
    + destruct (find_by_id_split _ _ _ Hd) as (l1 & l2 & -> & _ & -> & _).
      rewrite !length_app. simpl. lia.
    + destruct (find_by_id_None _ _ Hd) as [-> _]. lia.
Qed.

Lemma has_id_unique (id : string) (docs : collection) (d d' : Song) :
  NoDup (_id <$> docs) → d ∈ docs → d' ∈ docs →
  has_id id d = true → has_id id d' = true → d = d'.
Proof.
  intros Hnd Hd Hd' Hid Hid'. unfold has_id in *.
  apply bool_decide_eq_true in Hid, Hid'.
  apply list_elem_of_lookup in Hd as [i Hi], Hd' as [j Hj].
  assert (i = j); [|naive_solver].
  apply (NoDup_lookup (_id <$> docs) i j (cast_object_id id)); [done|..];
    rewrite list_lookup_fmap; [rewrite Hi|rewrite Hj]; simpl; congruence.
Qed.

(** X3. With pairwise distinct identifiers in the store, a successful
    delete is final: the record is gone from the store and from what
    [getAllSongs] lists, its identifier is no longer found, and the same
    delete request repeated answers 404 SONG_NOT_FOUND and changes
    nothing. *)
Theorem deleteSong_is_final (env env' : db_env) (docs : collection)
    (id : string) (d : Song) :
  NoDup (_id <$> docs) →
  JsString.matches_object_id id = true →
  find_by_id id docs = Some d →
  let docs' := (run (deleteSong id) env docs).2 in
  (d ∉ docs')
  ∧ (d ∉ find_sorted QAll docs')
  ∧ find_by_id id docs' = None
  ∧ run (deleteSong id) env' docs'
    = (fail 404 "Song not found" "SONG_NOT_FOUND", docs').
Proof.
  intros Hnd Hid Hd docs'. subst docs'.
  rewrite (run_deleteSong_found _ _ _ _ Hid Hd). cbn [snd].
  destruct (find_by_id_split _ _ _ Hd) as (l1 & l2 & -> & Hd_id & Hrm & _).
  rewrite Hrm.
  assert (Hout : Forall (λ x, has_id id x = false) (l1 ++ l2)).
  { apply Forall_forall. intros x Hx.
    destruct (has_id id x) eqn:Hx_id; [|done]. exfalso.
    assert (x = d) as ->.
    { apply (has_id_unique id (l1 ++ d :: l2)); try done.
      - apply elem_of_app in Hx as [?|?]; apply elem_of_app; [by left|].
        right. by right.
      - apply elem_of_app. right. left. }
    rewrite fmap_app, fmap_cons in Hnd.
    apply NoDup_app in Hnd as (_ & Hdisj & [Hnot _]%NoDup_cons).
    apply elem_of_app in Hx as [Hx|Hx].
    - apply (Hdisj (_id d)); [by apply list_elem_of_fmap_2|left].
    - apply Hnot. by apply list_elem_of_fmap_2. }
  assert (Hnotin : d ∉ l1 ++ l2).
  { intros Hin. rewrite Forall_forall in Hout. specialize (Hout d Hin).
    congruence. }
  assert (Hnone : find_by_id id (l1 ++ l2) = None)
    by (by apply find_by_id_None_iff).
  split; [done|]. split; [|split; [done|]].
  - destruct (find_sorted_QAll (l1 ++ l2)) as [Hp _]. by rewrite Hp.
  - unfold deleteSong. rewrite Hid. cbn [negb run exec_op fst snd].
    rewrite Hnone. by destruct (find_by_id_None _ _ Hnone) as [-> _].
Qed.

Lemma deleteSong_is_final_witness :
  NoDup (_id <$> sample_docs)
  ∧ JsString.matches_object_id "65a000000000000000000001" = true
  ∧ find_by_id "65a000000000000000000001" sample_docs = Some rock_b
  ∧ find_by_id "65a000000000000000000001"
      (run (deleteSong "65a000000000000000000001") sample_env sample_docs).2
    = None.
Proof.
  assert (H1 : NoDup (_id <$> sample_docs)).
  { refine (bool_decide_unpack _ _). vm_compute. exact I. }
  split; [exact H1|]. split; [reflexivity|]. split; [reflexivity|].
  destruct (deleteSong_is_final sample_env sample_env sample_docs
              "65a000000000000000000001" rock_b H1 eq_refl eq_refl)
    as (_ & _ & H & _).
  exact H.
Defined.

(** ** Creating *)

Lemma find_by_id_snoc (id : string) (docs : collection) (d : Song) :
  find_by_id id docs = None → has_id id d = true →
  find_by_id id (docs ++ [d]) = Some d
  ∧ remove_by_id id (docs ++ [d]) = docs.
Proof.
  intros Hnone Hd. induction docs as [|x docs IH]; simpl in *.
  - by rewrite Hd.
  - destruct (has_id id x); [done|]. destruct (IH Hnone) as [-> ->]. done.
Qed.

(** X4. A valid payload is persisted by [createSong]: the answer is 201
    with a record that carries the four strings of the payload without the
    white space at their ends, the new identifier and equal creation and
    update times; the record is added after the records already stored,
    which are untouched.  When the new identifier is a lower-case ObjectId
    that no stored record has, the record is found under it, and deleting
    it gives back the store as it was. *)
Theorem createSong_persists (env env' : db_env) (docs : collection)
    (body : payload) (v : song_value) :
  songValidationSchema_validate body = inr v →
  JsString.matches_object_id (fresh_id env) = true →
  cast_object_id (fresh_id env) = fresh_id env →
  find_by_id (fresh_id env) docs = None →
  let d := mkSong (fresh_id env) (v_title v) (v_artist v) (v_album v)
             (v_genre v) (now env) (now env) in
  (∃ t a l g,
     body = mkPayload (Str t) (Str a) (Str l) (Str g)
     ∧ d = mkSong (fresh_id env) (JsString.trim t) (JsString.trim a)
             (JsString.trim l) (JsString.trim g) (now env) (now env))
  ∧ run (createSong body) env docs
  = (mkResponse 201 (Success (DataSong d) None "Song created successfully"),
     docs ++ [d])
  ∧ find_by_id (fresh_id env) (docs ++ [d]) = Some d
  ∧ run (deleteSong (fresh_id env)) env' (docs ++ [d])
    = (mkResponse 200 (Success (DataSong d) None "Song deleted successfully"),
       docs).
Proof.
  intros Hv Hhex Hlower Hfresh d.
  assert (Hd : has_id (fresh_id env) d = true).
  { unfold has_id. apply bool_decide_eq_true. by rewrite Hlower. }
  destruct (find_by_id_snoc _ _ _ Hfresh Hd) as [Hfind Hrm].
  split.
  { destruct (validated_payload _ _ Hv) as (t & a & l & g & -> & ->).
    by exists t, a, l, g. }
  split; [by apply run_createSong_valid|]. split; [done|].
  rewrite (run_deleteSong_found _ _ _ _ Hhex Hfind). by rewrite Hrm.
Qed.

Lemma createSong_persists_witness :
  songValidationSchema_validate sample_body = inr sample_value
  ∧ JsString.matches_object_id (fresh_id sample_env) = true
  ∧ cast_object_id (fresh_id sample_env) = fresh_id sample_env
  ∧ find_by_id (fresh_id sample_env) sample_docs = None
  ∧ (run (deleteSong (fresh_id sample_env)) sample_env
       (run (createSong sample_body) sample_env sample_docs).2).2
    = sample_docs.
Proof.
  split; [reflexivity|]. split; [reflexivity|]. split; [reflexivity|].
  split; [reflexivity|].
  destruct (createSong_persists sample_env sample_env sample_docs sample_body
              sample_value eq_refl eq_refl eq_refl eq_refl) as (_ & H1 & _ & H3).
  rewrite H1. cbn [snd]. rewrite H3. reflexivity.
Defined.

(** ** What the store keeps under every request *)

Lemma run_createSong_invalid (env : db_env) (docs : collection)
    (body : payload) (errs : list joi_detail) :
  songValidationSchema_validate body = inl errs →
  run (createSong body) env docs = (validation_failed (joi_details errs), docs).
Proof. intros Hv. unfold createSong. by rewrite Hv. Qed.

Lemma run_updateSong_store (env : db_env) (docs : collection)
    (id : string) (body : payload) :
  (run (updateSong id body) env docs).2 = docs
  ∨ ∃ v, songValidationSchema_validate body = inr v
         ∧ (run (updateSong id body) env docs).2
           = update_by_id id (apply_update env v) docs.
Proof.
  destruct (JsString.matches_object_id id) eqn:Hid.
  - destruct (songValidationSchema_validate body) as [errs|v] eqn:Hv.
    + left. unfold updateSong. by rewrite Hid, Hv.
    + right. exists v. split; [done|].
      rewrite (run_updateSong_valid _ _ _ _ _ Hid Hv).
      destruct (find_by_id id docs) as [d|] eqn:Hd; [done|].
      by destruct (find_by_id_None _ _ Hd) as [_ ->].
  - left. unfold updateSong. by rewrite Hid.
Qed.

(** The store after a request is the store before, or the store with one
    record added, rewritten or removed. *)
Lemma router_store_cases (req : request) (env : db_env) (docs : collection) :
  (run (router req) env docs).2 = docs
  ∨ (∃ body v, songValidationSchema_validate body = inr v
               ∧ (run (router req) env docs).2 = docs ++ [new_document env v])
  ∨ (∃ id body v, songValidationSchema_validate body = inr v
                  ∧ (run (router req) env docs).2
                    = update_by_id id (apply_update env v) docs)
  ∨ (∃ id, (run (router req) env docs).2 = remove_by_id id docs).
Proof.
  destruct req as [|body|g|id body|id|]; simpl router.
  - by left.
  - destruct (songValidationSchema_validate body) as [errs|v] eqn:Hv.
    + left. by rewrite (run_createSong_invalid _ _ _ _ Hv).
    + right. left. exists body, v. split; [done|].
      by rewrite (run_createSong_valid _ _ _ _ Hv).
  - left. apply run_filterSongs_store.
  - destruct (run_updateSong_store env docs id body) as [?|(v & ? & ?)];
      [by left|]. right. right. left. by exists id, body, v.
  - unfold deleteSong. destruct (JsString.matches_object_id id); [|by left].
    right. right. right. exists id. simpl.
    by destruct (find_by_id id docs).
  - by left.
Qed.

Lemma update_by_id_Forall (P : Song → Prop) (id : string) (f : Song → Song)
    (docs : collection) :
  Forall P docs → (∀ d, P d → P (f d)) → Forall P (update_by_id id f docs).
Proof.
  intros Hall Hf. induction Hall as [|d docs Hd Hall IH]; simpl; [done|].
  destruct (has_id id d); constructor; auto.
Qed.

Lemma remove_by_id_Forall (P : Song → Prop) (id : string) (docs : collection) :
  Forall P docs → Forall P (remove_by_id id docs).
Proof.
  intros Hall. induction Hall as [|d docs Hd Hall IH]; simpl; [done|].
  destruct (has_id id d); [done|by constructor].
Qed.

(** A property of records that holds of every record a valid payload gives
    rise to, whether created or rewritten, holds throughout the store
    after any request if it did before. *)
Lemma router_preserves (P : Song → Prop) (req : request) (env : db_env)
    (docs : collection) :
  (∀ body v, songValidationSchema_validate body = inr v →
             P (new_document env v)) →
  (∀ body v d, songValidationSchema_validate body = inr v →
               P d → P (apply_update env v d)) →
  Forall P docs → Forall P (run (router req) env docs).2.
Proof.
  intros Hnew Hupd Hall.
  destruct (router_store_cases req env docs)
    as [->|[(body & v & Hv & ->)|[(id & body & v & Hv & ->)|(id & ->)]]].
  - done.
  - apply Forall_app. split; [done|]. constructor; [|done]. by eapply Hnew.
  - apply update_by_id_Forall; [done|]. intros d. by eapply Hupd.
  - by apply remove_by_id_Forall.
Qed.

Lemma joi_value_fields_ok (body : payload) (v : song_value) :
  songValidationSchema_validate body = inr v →
  field_ok title_schema (v_title v) ∧ field_ok artist_schema (v_artist v)
  ∧ field_ok album_schema (v_album v) ∧ field_ok genre_schema (v_genre v).
Proof.
  intros (Ht & Ha & Hl & Hg)%joi_validate_ok.
  repeat split;
    match goal with
    | |- JsString.trim _ = _ => eapply path_errors_ok; eassumption
    | |- JsString.truthy _ = _ => eapply validate_string_ok; eassumption
    | |- (_ <=? _) = true => apply Nat.leb_le; eapply validate_string_ok; eassumption
    end.
Qed.

(** X5. Whatever the request, if every stored record has its four text
    fields trimmed, non-empty and within the length bounds (200, 100, 200,
    50), so has every record of the store afterwards. *)
Theorem router_keeps_records_valid (req : request) (env : db_env)
    (docs : collection) :
  Forall valid_record docs → Forall valid_record (run (router req) env docs).2.
Proof.
  apply router_preserves.
  - intros body v Hv. by apply joi_value_fields_ok in Hv.
  - intros body v d Hv _. by apply joi_value_fields_ok in Hv.
Qed.

Lemma sample_docs_valid : Forall valid_record sample_docs.
Proof. repeat constructor. Qed.

Lemma router_keeps_records_valid_witness :
  Forall valid_record sample_docs
  ∧ Forall valid_record
      (run (router (PUT_songs "65a000000000000000000002" sample_body))
         sample_env sample_docs).2.
Proof.
  split; [exact sample_docs_valid|].
  apply (router_keeps_records_valid
           (PUT_songs "65a000000000000000000002" sample_body) sample_env
           sample_docs).
  exact sample_docs_valid.
Defined.

(** X6. Whatever the request, if no stored record was created after the
    current time of the store and every stored record has
    [createdAt ≤ updatedAt], then every record of the store afterwards has
    [createdAt ≤ updatedAt]. *)
Theorem router_keeps_stamps_ordered (req : request) (env : db_env)
    (docs : collection) :
  Forall (λ d, (createdAt d ≤ now env)%Z) docs →
  Forall stamps_ordered docs →
  Forall stamps_ordered (run (router req) env docs).2.
Proof.
  intros Hclock Hord.
  assert (Hboth : Forall (λ d, stamps_ordered d ∧ (createdAt d ≤ now env)%Z)
                    (run (router req) env docs).2).
  { apply router_preserves.
    - intros body v _. unfold stamps_ordered. simpl. lia.
    - intros body v d _ [_ Hd]. unfold stamps_ordered. simpl. lia.
    - apply Forall_and. by split. }
  by apply Forall_and in Hboth as [? _].
Qed.

Lemma router_keeps_stamps_ordered_witness :
  Forall (λ d, (createdAt d ≤ now sample_env)%Z) sample_docs
  ∧ Forall stamps_ordered sample_docs
  ∧ Forall stamps_ordered
      (run (router (PUT_songs "65a000000000000000000002" sample_body))
         sample_env sample_docs).2.
Proof.
  assert (H1 : Forall (λ d, (createdAt d ≤ now sample_env)%Z) sample_docs)
    by (repeat constructor; by vm_compute).
  assert (H2 : Forall stamps_ordered sample_docs)
    by (repeat constructor; by vm_compute).
  split; [exact H1|]. split; [exact H2|].
  exact (router_keeps_stamps_ordered
           (PUT_songs "65a000000000000000000002" sample_body) sample_env
           sample_docs H1 H2).
Defined.

Lemma update_by_id_fmap {A} (g : Song → A) (id : string) (f : Song → Song)
    (docs : collection) :
  (∀ d, g (f d) = g d) → g <$> update_by_id id f docs = g <$> docs.
Proof.
  intros Hg. induction docs as [|d docs IH]; simpl; [done|].
  destruct (has_id id d); csimpl; by rewrite ?Hg, ?IH.
Qed.

(** X7. Whatever the request, if the stored records have pairwise distinct
    identifiers and the identifier the store would give to a new record is
    none of them, the identifiers are pairwise distinct afterwards. *)
Theorem router_keeps_ids_distinct (req : request) (env : db_env)
    (docs : collection) :
  NoDup (_id <$> docs) →
  fresh_id env ∉ _id <$> docs →
  NoDup (_id <$> (run (router req) env docs).2).
Proof.
  intros Hnd Hfresh.
  destruct (router_store_cases req env docs)
    as [->|[(body & v & Hv & ->)|[(id & body & v & Hv & ->)|(id & ->)]]].
  - done.
  - rewrite fmap_app. apply NoDup_app. split; [done|]. split.
    + intros x Hx [->|[]%elem_of_nil]%elem_of_cons. done.
    + apply NoDup_singleton.
  - by rewrite update_by_id_fmap.
  - apply (sublist_NoDup _ (_id <$> docs));
      first [exact Hnd | apply fmap_sublist, remove_by_id_sublist].
Qed.

Lemma router_keeps_ids_distinct_witness :
  NoDup (_id <$> sample_docs)
  ∧ (fresh_id sample_env ∉ _id <$> sample_docs)
  ∧ NoDup (_id <$> (run (router (POST_songs sample_body)) sample_env sample_docs).2).
Proof.
  assert (H1 : NoDup (_id <$> sample_docs)).
  { refine (bool_decide_unpack _ _). vm_compute. exact I. }
  assert (H2 : fresh_id sample_env ∉ _id <$> sample_docs).
  { refine (bool_decide_unpack _ _). vm_compute. exact I. }
  split; [exact H1|]. split; [exact H2|].
  exact (router_keeps_ids_distinct (POST_songs sample_body) sample_env
           sample_docs H1 H2).
Defined.

(** ** Updating *)

Lemma update_by_id_idem (id : string) (f : Song → Song) (docs : collection) :
  (∀ d, has_id id (f d) = has_id id d) → (∀ d, f (f d) = f d) →
  update_by_id id f (update_by_id id f docs) = update_by_id id f docs.
Proof.
  intros Hid Hf. induction docs as [|d docs IH]; simpl; [done|].
  destruct (has_id id d) eqn:Hd; simpl.
  - by rewrite Hid, Hd, Hf.
  - by rewrite Hd, IH.
Qed.

Lemma update_by_id_others (id : string) (f : Song → Song) (docs : collection) :
  (∀ d, has_id id (f d) = has_id id d) →
  filter (λ d, has_id id d = false) (update_by_id id f docs)
  = filter (λ d, has_id id d = false) docs.
Proof.
  intros Hid. induction docs as [|d docs IH]; simpl; [done|].
  destruct (has_id id d) eqn:Hd.
  - rewrite !filter_cons, !decide_False; [done|by rewrite Hd|by rewrite Hid, Hd].
  - rewrite !filter_cons, !decide_True by done. by rewrite IH.
Qed.

Lemma find_by_id_update (id : string) (f : Song → Song) (docs : collection) :
  (∀ d, has_id id (f d) = has_id id d) →
  find_by_id id (update_by_id id f docs) = f <$> find_by_id id docs.
Proof.
  intros Hid. induction docs as [|d docs IH]; simpl; [done|].
  destruct (has_id id d) eqn:Hd; simpl.
  - by rewrite Hid, Hd.
  - by rewrite Hd, IH.
Qed.

(** X8. Whatever its outcome, an update request leaves the identifiers and
    the creation times of the store, record by record, as they were, and
    leaves every record with another identifier untouched; repeating the
    same request at the same time gives the same answer and the same
    store. *)
Theorem updateSong_frame_and_idempotence (env : db_env) (docs : collection)
    (id : string) (body : payload) :
  let r := run (updateSong id body) env docs in
  _id <$> r.2 = _id <$> docs
  ∧ createdAt <$> r.2 = createdAt <$> docs
  ∧ filter (λ d, has_id id d = false) r.2
    = filter (λ d, has_id id d = false) docs
  ∧ run (updateSong id body) env r.2 = r.
Proof.
  intros r. subst r.
  destruct (JsString.matches_object_id id) eqn:Hid;
    [|by unfold updateSong; rewrite Hid].
  destruct (songValidationSchema_validate body) as [errs|v] eqn:Hv;
    [by unfold updateSong; rewrite Hid, Hv|].
  rewrite !(run_updateSong_valid _ _ _ _ _ Hid Hv).
  assert (Hkeep : ∀ d, has_id id (apply_update env v d) = has_id id d) by done.
  destruct (find_by_id id docs) as [d|] eqn:Hd; cbn [fst snd].
  - rewrite !update_by_id_fmap by done. rewrite update_by_id_others by done.
    rewrite find_by_id_update, Hd by done. simpl.
    rewrite update_by_id_idem by done. done.
  - by rewrite Hd.
Qed.

(** ** Answers *)

(** X9. When the store throws on every operation, a request that reaches
    the store at all is answered 500 INTERNAL_ERROR with the fixed text of
    its controller, in which the message of the thrown error does not
    appear and which carries no details; a request that does not reach
    the store is answered as with an available store. *)
Theorem storage_failure_is_internal_error (req : request) (cause : string)
    (env : db_env) (docs : collection) :
  run_unavailable (StorageError cause) (router req)
  = if reaches_store (router req)
    then mkResponse 500
           (Failure (mkError (internal_error_text req) "INTERNAL_ERROR" None))
    else (run (router req) env docs).1.
Proof.
  destruct req as [|body|g|id body|id|]; simpl router; try done.
  - unfold createSong. by destruct (songValidationSchema_validate body).
  - destruct g as [g|]; [|done]. unfold filterSongs.
    by destruct (query_truthy g).
  - unfold updateSong. destruct (JsString.matches_object_id id); [|done].
    by destruct (songValidationSchema_validate body).
  - unfold deleteSong. by destruct (JsString.matches_object_id id).
Qed.

Lemma run_router_answer (req : request) (env : db_env) (docs : collection) :
  let r := run (router req) env docs in
  (succeeded r.1 = true
   ∧ status r.1 = match req with POST_songs _ => 201 | _ => 200 end)
  ∨ (r.2 = docs
     ∧ (failure_of r.1
        ∈ [ Some (400, "INVALID_ID"); Some (400, "VALIDATION_ERROR");
            Some (404, "SONG_NOT_FOUND"); Some (400, "MISSING_PARAMETER") ]
        ∨ failure_of r.1 = Some (500, "INTERNAL_ERROR") ∧ uncastable env req)).
Proof.
  destruct req as [|body|g|id body|id|]; simpl router.
  - by left.
  - destruct (songValidationSchema_validate body) as [errs|v] eqn:Hv.
    + right. rewrite (run_createSong_invalid _ _ _ _ Hv). split; [done|].
      left. cbn. set_solver.
    + left. by rewrite (run_createSong_valid _ _ _ _ Hv).
  - destruct g as [v|]; [|right; split; [done|left; cbn; set_solver]].
    unfold filterSongs. destruct (query_truthy v);
      [|right; split; [done|left; cbn; set_solver]].
    cbn [negb run exec_op].
    destruct (cast_filter env (ByGenre v)) as [error|q] eqn:Hcast;
      cbn [fst snd]; [|by left].
    right. split; [done|]. right. split; [done|]. exists v.
    unfold cast_filter in Hcast.
    destruct v as [s|items|fields]; [done|..];
      (destruct (cast_condition env _) as [error'|] eqn:Hcond; [|done]);
      exists error'; by split_and!.
  - destruct (JsString.matches_object_id id) eqn:Hid.
    + destruct (songValidationSchema_validate body) as [errs|v] eqn:Hv.
      * right. unfold updateSong. rewrite Hid, Hv. split; [done|].
        left. cbn. set_solver.
      * rewrite (run_updateSong_valid _ _ _ _ _ Hid Hv).
        destruct (find_by_id id docs); [by left|].
        right; split; [done|left; cbn; set_solver].
    + right. unfold updateSong. rewrite Hid.
      split; [done|left; cbn; set_solver].
  - unfold deleteSong. destruct (JsString.matches_object_id id) eqn:Hid.
    + cbn [negb run exec_op fst snd].
      destruct (find_by_id id docs) as [d|] eqn:Hd; [by left|].
      right. split; [by destruct (find_by_id_None _ _ Hd) as [-> _]|].
      left. cbn. set_solver.
    + right; split; [done|left; cbn; set_solver].
  - by left.
Qed.

(** X10. With an available store every request is answered either with a
    success body and status 200 (201 for a creation), or with a failure
    body whose status and code are one of 400 INVALID_ID, 400
    VALIDATION_ERROR, 404 SONG_NOT_FOUND and 400 MISSING_PARAMETER, or
    else 500 INTERNAL_ERROR, which is the answer to a filter request only,
    and only when its [genre] parameter is an array or an object that
    Mongoose does not cast to a condition on the genre. *)
Theorem router_status_matches_body (req : request) (env : db_env)
    (docs : collection) :
  let r := (run (router req) env docs).1 in
  if succeeded r
  then status r = match req with POST_songs _ => 201 | _ => 200 end
  else failure_of r
       ∈ [ Some (400, "INVALID_ID"); Some (400, "VALIDATION_ERROR");
           Some (404, "SONG_NOT_FOUND"); Some (400, "MISSING_PARAMETER") ]
       ∨ failure_of r = Some (500, "INTERNAL_ERROR") ∧ uncastable env req.
Proof.
  intros r. subst r.
  destruct (run_router_answer req env docs) as [[Hs Hst]|[_ Hf]].
  - by rewrite Hs.
  - destruct (succeeded _) eqn:Hs; [|done]. exfalso.
    unfold succeeded, failure_of in *.
    destruct (json _); [|done]. destruct Hf as [Hf|[Hf _]]; [|done].
    repeat (apply elem_of_cons in Hf as [Hf|Hf]; [discriminate|]).
    by apply elem_of_nil in Hf.
Qed.

(** An object that Mongoose does not cast is answered 500 although the
    store is available. *)
Example filter_by_object :
  run (filterSongs (Some (QObject [("foo", QString "bar")]))) sample_env
    sample_docs
  = (fail 500 "Failed to filter songs" "INTERNAL_ERROR", sample_docs)
  ∧ template_text (QArray [QString "Rock"; QObject []; QArray [QString "a"; QString "b"]])
    = "Rock,[object Object],a,b".
Proof. by split. Qed.

(** X11. A request that is answered with a failure, and a request that
    only reads (the list, the filter, the statistics), leaves the store
    exactly as it was. *)
Theorem failures_and_reads_keep_store (req : request) (env : db_env)
    (docs : collection) :
  let r := run (router req) env docs in
  if succeeded r.1 && negb (is_read req) then True else r.2 = docs.
Proof.
  intros r. subst r.
  destruct (run_router_answer req env docs) as [[Hs Hst]|[Hsame Hf]].
  - rewrite Hs. destruct req as [|body|g|id body|id|]; try done; simpl.
    apply run_filterSongs_store.
  - by destruct (_ && _).
Qed.

(** ** Validation, once more *)

Lemma validate_string_fixed (sch : string_schema) (s : string) :
  field_ok sch s → validate_string sch (Str s) = inr s.
Proof.
  intros (Htrim & Ht & Hmax). unfold validate_string. rewrite Htrim, Ht.
  simpl. apply Nat.leb_le in Hmax.
  pose proof (truthy_length _ Ht) as Hlen.
  destruct (JsString.length s <? 1) eqn:H1; [apply Nat.ltb_lt in H1; lia|].
  destruct (s_max sch <? JsString.length s) eqn:H2;
    [apply Nat.ltb_lt in H2; lia|done].
Qed.

Lemma validate_value_again (body : payload) (v : song_value) :
  songValidationSchema_validate body = inr v →
  songValidationSchema_validate (body_of_value v) = inr v.
Proof.
  intros (Ht & Ha & Hl & Hg)%joi_value_fields_ok.
  unfold songValidationSchema_validate, joi_validate, body_of_value.
  cbn [p_title p_artist p_album p_genre].
  rewrite !validate_string_fixed by done. by destruct v.
Qed.

(** X12. Validation is idempotent: the normalised value of a valid body
    validates to itself, so that the validation middleware placed in front
    of [createSong], which validates again what the middleware hands over,
    gives the very controller; in front of [updateSong] it gives the
    controller on valid bodies and lets VALIDATION_ERROR take precedence
    over INVALID_ID on the others. *)
Theorem validateRequest_then_controller (body : payload) (id : string) :
  validateRequest body createSong = createSong body
  ∧ validateRequest body (updateSong id)
    = match songValidationSchema_validate body with
      | inl error => Ret (validation_failed (joi_details error))
      | inr _ => updateSong id body
      end
  ∧ match songValidationSchema_validate body with
    | inr v => songValidationSchema_validate (body_of_value v) = inr v
    | inl _ => True
    end.
Proof.
  unfold validateRequest, createSong, updateSong.
  destruct (songValidationSchema_validate body) as [errs|v] eqn:Hv; [done|].
  by rewrite (validate_value_again _ _ Hv).
Qed.

(** ** Statistics, once more *)

Lemma filter_length_Permutation {A} (P : A → Prop) `{∀ x, Decision (P x)}
    (l l' : list A) :
  l ≡ₚ l' → length (filter P l) = length (filter P l').
Proof. intros Hp. by rewrite Hp. Qed.

Lemma grouped_Permutation {D} (key : D → string) (docs docs' : list D) :
  docs ≡ₚ docs' →
  toMap (sort_count_desc (group_sum1 key docs))
  = toMap (sort_count_desc (group_sum1 key docs')).
Proof.
  intros Hp. apply map_eq. intros k. rewrite !grouped_lookup.
  by rewrite (filter_length_Permutation _ _ _ Hp).
Qed.

Lemma distinct_Permutation {D K} `{Countable K} (key : D → K)
    (docs docs' : list D) :
  docs ≡ₚ docs' →
  first_count (count_stage (group_ids key docs))
  = first_count (count_stage (group_ids key docs')).
Proof. intros Hp. rewrite !distinct_count. by rewrite Hp. Qed.

(** X13. The statistics do not depend on the order of the records in the
    collection: two collections with the same records, each as often,
    have the same statistics. *)
Theorem computeStatistics_order_independent (docs docs' : collection) :
  docs ≡ₚ docs' → computeStatistics docs = computeStatistics docs'.
Proof.
  intros Hp. unfold computeStatistics, formattedStats, statistics_pipeline.
  cbn [f_totalSongs f_totalArtists f_totalAlbums f_totalGenres f_songsByGenre
       f_songsByArtist f_albumsByArtist f_songsByAlbum].
  rewrite (distinct_Permutation artist _ _ Hp),
    (distinct_Permutation album _ _ Hp), (distinct_Permutation genre _ _ Hp).
  rewrite (count_stage_length docs), (Permutation_length Hp),
    <-(count_stage_length docs').
  rewrite (grouped_Permutation genre _ _ Hp),
    (grouped_Permutation artist _ _ Hp), (grouped_Permutation album _ _ Hp).
  f_equal. apply map_eq. intros a.
  pose proof (albumsByArtist_lookup docs a) as H1.
  pose proof (albumsByArtist_lookup docs' a) as H2.
  unfold computeStatistics, formattedStats, statistics_pipeline in H1, H2.
  cbn [albumsByArtist f_albumsByArtist] in H1, H2. rewrite H1, H2.
  by rewrite Hp.
Qed.

Lemma computeStatistics_order_independent_witness :
  [rock_a; rock_b; jazz_c] ≡ₚ [jazz_c; rock_a; rock_b]
  ∧ computeStatistics [rock_a; rock_b; jazz_c]
    = computeStatistics [jazz_c; rock_a; rock_b].
Proof.
  assert (H : [rock_a; rock_b; jazz_c] ≡ₚ [jazz_c; rock_a; rock_b]).
  { change ([rock_a; rock_b] ++ [jazz_c] ≡ₚ [jazz_c] ++ [rock_a; rock_b]).
    apply Permutation_app_comm. }
  split; [exact H|].
  exact (computeStatistics_order_independent _ _ H).
Defined.

Lemma length_remove_dups_le {A} `{EqDecision A} (l : list A) :
  length (remove_dups l) ≤ length l.
Proof.
  induction l as [|x l IH]; simpl; [done|].
  destruct (decide_rel elem_of x l); simpl; lia.
Qed.

Lemma size_list_to_set_bounds {K} `{Countable K} (l : list K) :
  size (list_to_set l : gset K) ≤ length l
  ∧ (size (list_to_set l : gset K) = 0 ↔ l = []).
Proof.
  split.
  - assert (list_to_set l = (list_to_set (remove_dups l) : gset K)) as ->.
    { apply set_eq. intros k.
      by rewrite !elem_of_list_to_set, elem_of_remove_dups. }
    rewrite size_list_to_set by apply NoDup_remove_dups.
    apply length_remove_dups_le.
  - split; [|by intros ->].
    intros Hz%size_empty_inv. destruct l as [|x l]; [done|].
    exfalso. apply (not_elem_of_empty (C:=gset K) x). apply Hz.
    apply elem_of_list_to_set. left.
Qed.

Lemma filter_artist_album (docs : collection) (a : string) :
  filter (λ p, p.1 = a) (artist_album <$> docs)
  = artist_album <$> filter (λ d, artist d = a) docs.
Proof.
  induction docs as [|d docs IH]; [done|]. csimpl.
  rewrite !filter_cons. simpl.
  destruct (decide (artist d = a)); csimpl; by rewrite IH.
Qed.

Lemma grouped_size {D} (key : D → string) (docs : list D) :
  size (toMap (sort_count_desc (group_sum1 key docs)))
  = first_count (count_stage (group_ids key docs)).
Proof.
  rewrite toMap_sorted by apply group_sum1_NoDup.
  rewrite map_size_list_to_map by apply group_sum1_NoDup.
  rewrite count_stage_length. unfold group_sum1. by rewrite length_fmap.
Qed.

Lemma count_entry_is_Some (n : nat) : is_Some (count_entry n) ↔ n ≠ 0.
Proof.
  unfold count_entry. destruct (decide (n = 0)) as [->|Hn].
  - split; [by intros [? [=]]|done].
  - split; [done|by eexists].
Qed.

(** X14. The statistics of any collection are coherent with each other:
    each grouped map has as many keys as the corresponding total says and
    no entry equal to 0; [albumsByArtist] and [songsByArtist] have the same
    keys, and an artist never has more distinct albums than songs; and no
    total of distinct values exceeds the number of records. *)
Theorem statistics_are_coherent (docs : collection) :
  let s := computeStatistics docs in
  size (songsByGenre s) = totalGenres s
  ∧ size (songsByArtist s) = totalArtists s
  ∧ size (songsByAlbum s) = totalAlbums s
  ∧ dom (albumsByArtist s) = dom (songsByArtist s)
  ∧ (∀ a, count_of (albumsByArtist s) a ≤ count_of (songsByArtist s) a)
  ∧ (∀ k, 0 < default 1 (songsByGenre s !! k)
          ∧ 0 < default 1 (songsByArtist s !! k)
          ∧ 0 < default 1 (songsByAlbum s !! k)
          ∧ 0 < default 1 (albumsByArtist s !! k))
  ∧ totalArtists s ≤ totalSongs s
  ∧ totalAlbums s ≤ totalSongs s
  ∧ totalGenres s ≤ totalSongs s.
Proof.
  intros s. subst s.
  assert (Hentry : ∀ n, 0 < default 1 (count_entry n)).
  { intros n. unfold count_entry. case_decide; simpl; lia. }
  assert (Hsongs : ∀ a,
    songsByArtist (computeStatistics docs) !! a
    = count_entry (length (filter (λ d, artist d = a) docs)))
    by (intros a; apply grouped_lookup).
  assert (Hpairs : ∀ a,
    size (list_to_set (filter (λ p, p.1 = a) (artist_album <$> docs))
          : gset (string * string))
    ≤ length (filter (λ d, artist d = a) docs)
    ∧ (size (list_to_set (filter (λ p, p.1 = a) (artist_album <$> docs))
             : gset (string * string)) = 0
       ↔ length (filter (λ d, artist d = a) docs) = 0)).
  { intros a. rewrite filter_artist_album.
    destruct (size_list_to_set_bounds
                (artist_album <$> filter (λ d, artist d = a) docs))
      as [Hle Hz].
    rewrite length_fmap in Hle. split; [done|].
    rewrite Hz, length_zero_iff_nil.
    destruct (filter (λ d, artist d = a) docs); split; done. }
  split; [apply grouped_size|]. split; [apply grouped_size|].
  split; [apply grouped_size|]. split; [|split; [|split]].
  - apply set_eq. intros a. rewrite !elem_of_dom.
    rewrite albumsByArtist_lookup, Hsongs, !count_entry_is_Some.
    destruct (Hpairs a) as [_ ->]. done.
  - intros a. unfold count_of. rewrite albumsByArtist_lookup, Hsongs.
    destruct (Hpairs a) as [Hle Hz]. unfold count_entry.
    repeat case_decide; simpl; lia.
  - intros k. split; [|split; [|split]].
    + unfold computeStatistics, formattedStats, statistics_pipeline; simpl.
      rewrite grouped_lookup. apply Hentry.
    + rewrite Hsongs. apply Hentry.
    + unfold computeStatistics, formattedStats, statistics_pipeline; simpl.
      rewrite grouped_lookup. apply Hentry.
    + rewrite albumsByArtist_lookup. apply Hentry.
  - unfold computeStatistics, formattedStats, statistics_pipeline; simpl.
    rewrite !count_stage_length. unfold group_ids.
    repeat split;
      (etrans; [apply length_remove_dups_le|by rewrite length_fmap]).
Qed.

(** X15. The [getStatistics] static of the model and the statistics
    controller, two pipelines over the same collection, give the same four
    totals, on the empty collection too. *)
Theorem Song_getStatistics_agrees (docs : collection) :
  Song_getStatistics docs
  = {| t_totalSongs := totalSongs (computeStatistics docs);
       t_totalArtists := totalArtists (computeStatistics docs);
       t_totalAlbums := totalAlbums (computeStatistics docs);
       t_totalGenres := totalGenres (computeStatistics docs) |}.
Proof.
  unfold computeStatistics, formattedStats, statistics_pipeline; simpl.
  rewrite !count_stage_length. by destruct docs.
Qed.

(** X16. The counts of the two list endpoints agree with the statistics of
    the same store: [getAllSongs] counts [totalSongs] records, and
    [filterSongs] for a non-empty genre string counts as many records as
    [songsByGenre] holds for that string without the white space at its
    ends (0 when the key is absent). *)
Theorem list_counts_match_statistics (env : db_env) (docs : collection)
    (g : string) :
  JsString.truthy g = true →
  (∃ songs msg,
     run getAllSongs env docs
     = (mkResponse 200
          (Success (DataSongs songs)
             (Some (totalSongs (computeStatistics docs))) msg), docs))
  ∧ (∃ songs msg,
       run (filterSongs (Some (QString g))) env docs
       = (mkResponse 200
            (Success (DataSongs songs)
               (Some (count_of (songsByGenre (computeStatistics docs))
                        (JsString.trim g))) msg),
          docs)).
Proof.
  intros Hg. split.
  - destruct (find_sorted_QAll docs) as [Hp _].
    unfold getAllSongs. cbn [run exec_op cast_filter fst snd]. eexists _, _.
    do 4 f_equal. rewrite (Permutation_length Hp).
    unfold computeStatistics, formattedStats, statistics_pipeline; simpl.
    by rewrite count_stage_length.
  - rewrite (run_filterSongs _ _ _ Hg). eexists _, _. do 4 f_equal.
    rewrite songsByGenre_count.
    destruct (find_sorted_genre docs (JsString.trim g)) as [Hp _].
    apply (Permutation_length Hp).
Qed.

Lemma list_counts_match_statistics_witness :
  JsString.truthy "Rock " = true
  ∧ ∃ songs msg,
      run (filterSongs (Some (QString "Rock "))) sample_env sample_docs
      = (mkResponse 200
           (Success (DataSongs songs)
              (Some (count_of (songsByGenre (computeStatistics sample_docs)) "Rock"))
              msg),
         sample_docs).
Proof.
  split; [reflexivity|].
  destruct (list_counts_match_statistics sample_env sample_docs "Rock " eq_refl)
    as [_ H].
  exact H.
Defined.

(** ** The error handler *)

Lemma string_or_truthy (s : option string) (fallback : string) :
  JsString.truthy fallback = true → JsString.truthy (string_or s fallback) = true.
Proof.
  intros Hf. unfold string_or. destruct s as [s|]; [|done].
  by destruct (JsString.truthy s) eqn:Hs.
Qed.

(** X17. [errorHandler] answers every value that is a URIError or has a
    message, and itself throws on every other value.  Each answer has a
    status other than 0 and a non-empty message and code; the stack of the
    error is never part of the answer outside development, and in
    development only in the default branch; an error recognised as a
    URL-decoding or JSON-parsing error is answered 400 whatever status it
    carries. *)
Theorem errorHandler_answer_shape (development : bool) (err : thrown) :
  match errorHandler development err with
  | None =>
      is_URIError err = false ∧ thrown_message err = None
      ∧ ∀ development', errorHandler development' err = None
  | Some a =>
      (is_URIError err = true ∨ ∃ message, thrown_message err = Some message)
      ∧ 0 < answer_status a
      ∧ JsString.truthy (answer_message a) = true
      ∧ JsString.truthy (answer_code a) = true
      ∧ answer_stack <$> errorHandler false err = Some None
      ∧ (if is_URIError err
            || match thrown_message err with
               | Some message =>
                   JsString.includes "Failed to decode param" message
               | None => false
               end
            || (is_SyntaxError err && bool_decide (thrown_status err = Some 400)
                && has_body err)
         then answer_status a = 400 ∧ answer_stack a = None
         else answer_status a = nat_or (thrown_statusCode err) 500
              ∧ answer_stack a = if development then thrown_stack err else None)
  end.
Proof.
  unfold errorHandler.
  destruct (is_URIError err) eqn:Huri; simpl.
  { split; [by left|]. repeat split; simpl; lia. }
  destruct (thrown_message err) as [message|] eqn:Hm; [|done].
  destruct (JsString.includes _ message) eqn:H1; simpl.
  { split; [by right; exists message|]. repeat split; simpl; lia. }
  destruct (is_SyntaxError err && _ && has_body err) eqn:H2; simpl.
  { split; [by right; exists message|]. repeat split; simpl; lia. }
  split; [by right; exists message|].
  repeat split; try (by apply string_or_truthy).
  - unfold nat_or. destruct (thrown_statusCode err) as [[|n]|]; lia.
  - by destruct (JsString.truthy message) eqn:Ht.
Qed.

(** A thrown string has no [message]: the handler throws in its turn. *)
Example errorHandler_on_thrown_string :
  errorHandler false (mkThrown false false None None false None None None)
  = None
  ∧ errorHandler false
      (mkThrown false false (Some "") None false (Some 0) (Some "") (Some "at x"))
    = Some (mkErrorAnswer 500 "Internal server error" "INTERNAL_ERROR" None).
Proof. by split. Qed.

(** * Properties of the front end *)

Import Frontend.

(** ** The definitions on sample inputs (store/__tests__/slices.test.ts) *)

Example slice_fetchSongsRequest :
  songsSlice.reducer songsSlice.initialState fetchSongsRequest
  = {| songsSlice.items := []; songsSlice.loading := true;
       songsSlice.error := None; songsSlice.selectedSong := None |}.
Proof. reflexivity. Qed.

Example slice_deleteSongSuccess :
  songsSlice.items (songsSlice.reducer mirror_sample (deleteSongSuccess "1"))
  = [mkSong "2" "New Song" "Artist 2" "Album 2" "Pop" "" ""].
Proof. reflexivity. Qed.

(** A creation from the initial state, up to the failed statistics
    re-fetch. *)
Example create_then_refetch :
  let rt1 :=
    dispatch rootReducer 2
      (createSongRequest (mkCreateSongDto "New Song" "Artist 2" "Album 2" "Pop"))
      initialRuntime in
  let rt2 := settle rootReducer 2 1 0 sample_network rt1 in
  let rt3 := settle rootReducer 2 4 1 sample_network rt2 in
  requesting rt1 1 = Some 0
  ∧ songsSlice.loading (songs (store rt1)) = true
  ∧ songsSlice.items (songs (store rt2))
    = [mkSong "2" "New Song" "Artist 2" "Album 2" "Pop" "" ""]
  ∧ requesting rt2 1 = None
  ∧ requesting rt2 4 = Some 1
  ∧ statisticsSlice.loading (statistics (store rt2)) = true
  ∧ statisticsSlice.error (statistics (store rt3))
    = Some "Failed to fetch statistics"
  ∧ songsSlice.items (songs (store rt3)) = songsSlice.items (songs (store rt2)).
Proof. by repeat split. Qed.

(** ** The records of the Client Mirror under the three mutations *)

Lemma findIndex_Some (id : string) (l : list Song) (i : nat) :
  songsSlice.findIndex id l = Some i ↔
  (∃ x, l !! i = Some x ∧ _id x = id)
  ∧ ∀ j y, l !! j = Some y → j < i → _id y ≠ id.
Proof.
  unfold songsSlice.findIndex. split.
  - destruct (list_find _ l) as [[i' x]|] eqn:Hf; [|done].
    intros [= <-]. apply list_find_Some in Hf as (Hx & Hid & Hbefore).
    split; [by exists x|]. intros j y Hy Hj. by apply (Hbefore j).
  - intros [(x & Hx & Hid) Hbefore].
    assert (Hf : list_find (λ song, _id song = id) l = Some (i, x)).
    { apply list_find_Some. split_and!; [done|done|].
      intros j y Hy Hj. by apply (Hbefore j). }
    by rewrite Hf.
Qed.

Lemma findIndex_None (id : string) (l : list Song) :
  songsSlice.findIndex id l = None ↔ ∀ x, x ∈ l → _id x ≠ id.
Proof.
  unfold songsSlice.findIndex. rewrite fmap_None, list_find_None, Forall_forall.
  done.
Qed.

Lemma replace_first_length (updated : Song) (l : list Song) :
  length (replace_first updated l) = length l.
Proof.
  unfold replace_first. destruct (songsSlice.findIndex _ l); [|done].
  apply length_insert.
Qed.

Lemma replace_first_lookup (updated : Song) (l : list Song) (j : nat) (x : Song) :
  l !! j = Some x →
  replace_first updated l !! j
  = Some (if decide (songsSlice.findIndex (_id updated) l = Some j)
          then updated else x).
Proof.
  intros Hx. unfold replace_first.
  destruct (songsSlice.findIndex (_id updated) l) as [i|] eqn:Hfind.
  - destruct (decide (Some i = Some j)) as [[= ->]|Hne].
    + apply list_lookup_insert_eq. by eapply lookup_lt_Some.
    + rewrite list_lookup_insert_ne by congruence. done.
  - by rewrite decide_False.
Qed.

Lemma replace_first_NoDup (updated : Song) (l : list Song) :
  NoDup (_id <$> l) →
  replace_first updated l
  = (λ x, if decide (_id x = _id updated) then updated else x) <$> l.
Proof.
  intros Hnd. apply list_eq. intros j. rewrite list_lookup_fmap.
  destruct (l !! j) as [y|] eqn:Hy; simpl.
  - rewrite (replace_first_lookup _ _ _ _ Hy). f_equal.
    destruct (decide (_id y = _id updated)) as [Hid|Hid].
    + rewrite decide_True; [done|]. apply findIndex_Some. split; [by exists y|].
      intros j' y' Hy' Hlt Hid'. assert (j' = j); [|lia].
      apply (NoDup_lookup (_id <$> l) j' j (_id updated)); [done|..];
        rewrite list_lookup_fmap; [rewrite Hy'|rewrite Hy]; simpl; congruence.
    + rewrite decide_False; [done|]. intros [(x & Hx & Hidx) _]%findIndex_Some.
      congruence.
  - apply lookup_ge_None. rewrite replace_first_length.
    by apply lookup_ge_None.
Qed.

(** C4. For every state of the songs slice: a create Success puts the
    returned record in front of the items, which all stay in place; an
    update Success keeps the length of the list and changes one position
    at most, the first one whose item has the [_id] of the returned
    record, which now holds that record (so that with pairwise distinct
    identifiers every item of that [_id] is replaced), and changes nothing
    when no item has that [_id]; a delete Success keeps, in their order,
    exactly the items whose [_id] differs from the deleted one.  Each of
    the three resets [loading] and touches neither [error] nor
    [selectedSong]. *)
Theorem mutation_success_updates_items (st : songsSlice.SongsState)
    (created updated : Song) (deleted : string) :
  let items0 := songsSlice.items st in
  let after_create := songsSlice.reducer st (createSongSuccess created) in
  let after_update := songsSlice.reducer st (updateSongSuccess updated) in
  let after_delete := songsSlice.reducer st (deleteSongSuccess deleted) in
  (songsSlice.items after_create = created :: items0
   ∧ songsSlice.loading after_create = false)
  ∧ (length (songsSlice.items after_update) = length items0
     ∧ (∀ j x, items0 !! j = Some x →
          songsSlice.items after_update !! j
          = Some (if decide (songsSlice.findIndex (_id updated) items0 = Some j)
                  then updated else x))
     ∧ (∀ i, songsSlice.findIndex (_id updated) items0 = Some i ↔
             (∃ x, items0 !! i = Some x ∧ _id x = _id updated)
             ∧ ∀ j y, items0 !! j = Some y → j < i → _id y ≠ _id updated)
     ∧ (NoDup (_id <$> items0) →
          songsSlice.items after_update
          = (λ x, if decide (_id x = _id updated) then updated else x) <$> items0)
     ∧ songsSlice.loading after_update = false)
  ∧ (songsSlice.items after_delete = filter (λ x, _id x ≠ deleted) items0
     ∧ (∀ x, x ∈ songsSlice.items after_delete ↔ x ∈ items0 ∧ _id x ≠ deleted)
     ∧ songsSlice.items after_delete `sublist_of` items0
     ∧ songsSlice.loading after_delete = false)
  ∧ (∀ a, a ∈ [after_create; after_update; after_delete] →
          songsSlice.error a = songsSlice.error st
          ∧ songsSlice.selectedSong a = songsSlice.selectedSong st).
Proof.
  intros items0 after_create after_update after_delete.
  subst after_create after_update after_delete. cbn [songsSlice.reducer
    songsSlice.items songsSlice.loading songsSlice.error songsSlice.selectedSong].
  fold (replace_first updated (songsSlice.items st)). fold items0.
  split; [done|]. split; [|split].
  - split; [apply replace_first_length|].
    split; [apply replace_first_lookup|].
    split; [intros i; apply findIndex_Some|].
    split; [apply replace_first_NoDup|done].
  - split; [done|]. split; [|split; [apply sublist_filter|done]].
    intros x. rewrite list_elem_of_filter. tauto.
  - intros a Ha. rewrite !elem_of_cons, elem_of_nil in Ha.
    destruct Ha as [->|[->|[->|[]]]]; done.
Qed.

Lemma mutation_success_updates_items_witness :
  NoDup (_id <$> songsSlice.items mirror_sample)
  ∧ songsSlice.items
      (songsSlice.reducer mirror_sample
         (updateSongSuccess (mkSong "1" "Updated Song" "Artist 1" "Album 1" "Rock" "" "")))
    = [ mkSong "2" "New Song" "Artist 2" "Album 2" "Pop" "" "";
        mkSong "1" "Updated Song" "Artist 1" "Album 1" "Rock" "" "" ].
Proof.
  assert (Hnd : NoDup (_id <$> songsSlice.items mirror_sample)).
  { refine (bool_decide_unpack _ _). vm_compute. exact I. }
  split; [exact Hnd|].
  destruct (mutation_success_updates_items mirror_sample
              (mkSong "3" "" "" "" "" "" "")
              (mkSong "1" "Updated Song" "Artist 1" "Album 1" "Rock" "" "")
              "2")
    as (_ & (_ & _ & _ & Hall & _) & _).
  exact (Hall Hnd).
Defined.

(** ** Failure transitions *)

(** C7. For every state of the Client Mirror and every Failure action of
    any concern, the resulting state has the [loading] flag of that
    concern reset and its [error] set to the message carried by the
    action, while the items list, the selected song, the statistics
    snapshot and the filter are those of the state before; and the message
    each saga puts when its call is rejected is the [message] of the error
    or, when that is missing or empty, the fixed text of the saga. *)
Theorem failure_keeps_mirror_data (st : RootState) (k : failure_kind)
    (m : string) (e : js_error) (id : string) (dto : CreateSongDto)
    (data : UpdateSongDto) (g : option string) :
  let st' := rootReducer st (failure_action k m) in
  (concern_flags k st' = (false, Some m)
   ∧ songsSlice.items (songs st') = songsSlice.items (songs st)
   ∧ songsSlice.selectedSong (songs st') = songsSlice.selectedSong (songs st)
   ∧ statisticsSlice.data (statistics st') = statisticsSlice.data (statistics st)
   ∧ filters st' = filters st)
  ∧ puts_of (rejecting e) (fetchSongsSaga fetchSongsRequest)
    = [fetchSongsFailure (message_or e "Failed to fetch songs")]
  ∧ puts_of (rejecting e) (createSongSaga (createSongRequest dto))
    = [createSongFailure (message_or e "Failed to create song")]
  ∧ puts_of (rejecting e) (updateSongSaga (updateSongRequest id data))
    = [updateSongFailure (message_or e "Failed to update song")]
  ∧ puts_of (rejecting e) (deleteSongSaga (deleteSongRequest id))
    = [deleteSongFailure (message_or e "Failed to delete song")]
  ∧ puts_of (rejecting e) (fetchStatisticsSaga fetchStatisticsRequest)
    = [fetchStatisticsFailure (message_or e "Failed to fetch statistics")]
  ∧ puts_of (rejecting e) (filterSongsSaga (setGenreFilter g))
    = fetchSongsRequest
      :: match payload_truthy g with
         | Some _ => [fetchSongsFailure (message_or e "Failed to filter songs")]
         | None => []
         end.
Proof.
  intros st'. subst st'. split; [by destruct k|]. repeat split.
  unfold filterSongsSaga. by destruct (payload_truthy g).
Qed.

(** ** The saga middleware *)

Lemma matching_cases (a : action) :
  matching a
  = match a with
    | fetchSongsRequest => [(0, takeLatest "songs/fetchSongsRequest" fetchSongsSaga)]
    | createSongRequest _ => [(1, takeLatest "songs/createSongRequest" createSongSaga)]
    | updateSongRequest _ _ => [(2, takeLatest "songs/updateSongRequest" updateSongSaga)]
    | deleteSongRequest _ => [(3, takeLatest "songs/deleteSongRequest" deleteSongSaga)]
    | fetchStatisticsRequest =>
        [(4, takeLatest "statistics/fetchStatisticsRequest" fetchStatisticsSaga)]
    | setGenreFilter _ => [(5, takeLatest "filters/setGenreFilter" filterSongsSaga)]
    | _ => []
    end.
Proof. destruct a; reflexivity. Qed.

#[local] Arguments Nat.eqb !_ !_ / : simpl nomatch.

Ltac middleware_step :=
  first
    [ rewrite matching_cases
    | progress cbn [dispatch foldl fork advance worker fst snd reduced
                    set_latest is_current latest store next_task task_id
                    awaits Nat.eqb settle p_resume p_call p_type
                    fetchSongsSaga createSongSaga updateSongSaga
                    deleteSongSaga fetchStatisticsSaga filterSongsSaga
                    request_of watcher_of statistics_watcher succeeds
                    fmap option_fmap option_map]
    | rewrite Nat.eqb_refl
    | match goal with
      | |- context [Nat.eqb ?a ?b] =>
          rewrite (proj2 (Nat.eqb_neq a b)) by lia
      end ].

Ltac middleware := repeat middleware_step.

(** ** Statistics re-fetch after a mutation *)

Section Refetch.
Context {S : Type} (reduce : S → action → S).

(** C6. For each of the three mutation kinds: when the call of the
    mutation succeeds, its saga puts the Success action and then
    [fetchStatisticsRequest], upon which the statistics watcher forks a
    new task that awaits [api.fetchStatistics]; when the call fails, the
    saga puts the Failure action only, no task is forked and the
    statistics watcher is left as it was. *)
Theorem mutation_success_refetches_statistics (d : nat) (rt : runtime)
    (m : mutation) (net : network) :
  match m with
  | MCreate payload =>
      puts_of net (createSongSaga (createSongRequest payload))
      = match net _ (api.createSong payload) with
        | inl song => [createSongSuccess song; fetchStatisticsRequest]
        | inr e => [createSongFailure (message_or e "Failed to create song")]
        end
  | MUpdate id data =>
      puts_of net (updateSongSaga (updateSongRequest id data))
      = match net _ (api.updateSong id data) with
        | inl song => [updateSongSuccess song; fetchStatisticsRequest]
        | inr e => [updateSongFailure (message_or e "Failed to update song")]
        end
  | MDelete id =>
      puts_of net (deleteSongSaga (deleteSongRequest id))
      = match net _ (api.deleteSong id) with
        | inl _ => [deleteSongSuccess id; fetchStatisticsRequest]
        | inr e => [deleteSongFailure (message_or e "Failed to delete song")]
        end
  end
  ∧ let rt1 := dispatch reduce (Datatypes.S (Datatypes.S d)) (request_of m) rt in
    ∃ t, latest rt1 (watcher_of m) = Some t
         ∧ task_id t = next_task rt
         ∧ let rt2 :=
             settle reduce (Datatypes.S d) (watcher_of m) (task_id t) net rt1 in
           if succeeds net m
           then awaits_statistics (latest rt2 statistics_watcher)
                ∧ task_id <$> latest rt2 statistics_watcher = Some (next_task rt1)
                ∧ next_task rt2 = Datatypes.S (next_task rt1)
           else latest rt2 statistics_watcher = latest rt1 statistics_watcher
                ∧ next_task rt2 = next_task rt1.
Proof.
  split.
  - destruct m; simpl; by destruct (net _ _).
  - destruct m; middleware; (eexists; split; [reflexivity|]; split; [reflexivity|]);
      unfold settle; middleware; destruct (net _ _); middleware;
      try done; (split; [by eexists _, _|done]).
Qed.

End Refetch.

(** ** Latest request wins *)

Section LatestWins.
Context {S : Type} (reduce : S → action → S).


End LatestWins.



(** * Further properties of the front end *)

(** ** The form and the server *)

(** X18. A payload that the server's schema accepts is never held back by
    the form: [validate] reports no error for it and [handleSubmit] hands
    it to [onSubmit]. *)
Theorem form_accepts_what_server_accepts (formData : CreateSongDto)
    (v : Backend.song_value) :
  Backend.songValidationSchema_validate (body_of_dto formData) = inr v →
  SongForm.validate formData = (SongForm.mkFormErrors None None None None, true)
  ∧ SongForm.handleSubmit formData = Some formData.
Proof.
  intros (Ht & Ha & Hl & Hg)%joi_validate_ok.
  apply validate_string_ok in Ht as ((t & [= <-] & Et) & Ht & _).
  apply validate_string_ok in Ha as ((a & [= <-] & Ea) & Ha & _).
  apply validate_string_ok in Hl as ((l & [= <-] & El) & Hl & _).
  apply validate_string_ok in Hg as ((g & [= <-] & Eg) & Hg & _).
  rewrite Et in Ht. rewrite Ea in Ha. rewrite El in Hl. rewrite Eg in Hg.
  assert (Hgenre : JsString.truthy (dto_genre formData) = true).
  { destruct (dto_genre formData); [by vm_compute in Hg|done]. }
  unfold SongForm.handleSubmit, SongForm.validate, SongForm.blank.
  by rewrite Ht, Ha, Hl, Hgenre.
Qed.

Lemma form_accepts_what_server_accepts_witness :
  Backend.songValidationSchema_validate
    (body_of_dto (mkCreateSongDto " A " "X" "M" "Rock "))
  = inr Backend.sample_value
  ∧ SongForm.handleSubmit (mkCreateSongDto " A " "X" "M" "Rock ")
    = Some (mkCreateSongDto " A " "X" "M" "Rock ").
Proof.
  split; [reflexivity|].
  destruct (form_accepts_what_server_accepts
              (mkCreateSongDto " A " "X" "M" "Rock ") Backend.sample_value
              eq_refl) as [_ H].
  exact H.
Defined.

(** ** A request and its outcome on the songs slice *)

Lemma message_or_truthy (e : js_error) (fallback : string) :
  JsString.truthy fallback = true →
  JsString.truthy (message_or e fallback) = true.
Proof.
  intros Hf. unfold message_or. destruct (message e) as [m|]; [|done].
  by destruct (JsString.truthy m) eqn:Hm.
Qed.

(** X19. For a fetch of the songs and for each mutation, on any network:
    the reducer run over the request action followed by what the saga
    then puts ends with [loading] reset and the selected song untouched;
    on success [error] is empty (and the items are the fetched ones for a
    fetch), on failure the items are those before the request and [error]
    holds a non-empty text. *)
Theorem songs_request_cycle (st : songsSlice.SongsState) (net : network)
    (m : mutation) :
  let fetched :=
    foldl songsSlice.reducer st
      (fetchSongsRequest :: puts_of net (fetchSongsSaga fetchSongsRequest)) in
  let mutated :=
    foldl songsSlice.reducer st (request_of m :: puts_of net (saga_of m)) in
  (songsSlice.loading fetched = false
   ∧ songsSlice.selectedSong fetched = songsSlice.selectedSong st
   ∧ match net _ api.fetchSongs with
     | inl songs =>
         songsSlice.items fetched = songs ∧ songsSlice.error fetched = None
     | inr e =>
         songsSlice.items fetched = songsSlice.items st
         ∧ songsSlice.error fetched
           = Some (message_or e "Failed to fetch songs")
         ∧ JsString.truthy (message_or e "Failed to fetch songs") = true
     end)
  ∧ (songsSlice.loading mutated = false
     ∧ songsSlice.selectedSong mutated = songsSlice.selectedSong st
     ∧ if succeeds net m
       then songsSlice.error mutated = None
       else songsSlice.items mutated = songsSlice.items st
            ∧ JsString.truthy (default "" (songsSlice.error mutated)) = true).
Proof.
  intros fetched mutated. subst fetched mutated. split.
  - simpl. destruct (net _ api.fetchSongs) as [songs|e]; simpl; [done|].
    repeat split. by apply message_or_truthy.
  - destruct m as [payload|id data|id]; unfold succeeds; simpl;
      destruct (net _ _) as [x|e]; simpl; repeat split;
      by apply message_or_truthy.
Qed.

(** ** Identifiers in the Client Mirror *)

Lemma replace_first_ids (updated : Song) (l : list Song) :
  _id <$> replace_first updated l = _id <$> l.
Proof.
  unfold replace_first.
  destruct (songsSlice.findIndex (_id updated) l) as [i|] eqn:Hfind; [|done].
  apply findIndex_Some in Hfind as [(x & Hx & Hid) _].
  rewrite list_fmap_insert. apply list_insert_id.
  by rewrite list_lookup_fmap, Hx, <-Hid.
Qed.

(** X20. An update Success leaves the list of identifiers of the items as
    it is.  Hence, if the items have pairwise distinct identifiers, they
    still have after an update Success, after a delete Success, and after
    a create Success whose record has an identifier that no item has. *)
Theorem mirror_keeps_ids_distinct (st : songsSlice.SongsState)
    (created updated : Song) (deleted : string) :
  NoDup (_id <$> songsSlice.items st) →
  _id created ∉ _id <$> songsSlice.items st →
  _id <$> songsSlice.items (songsSlice.reducer st (updateSongSuccess updated))
  = _id <$> songsSlice.items st
  ∧ NoDup (_id <$> songsSlice.items
                     (songsSlice.reducer st (updateSongSuccess updated)))
  ∧ NoDup (_id <$> songsSlice.items
                     (songsSlice.reducer st (deleteSongSuccess deleted)))
  ∧ NoDup (_id <$> songsSlice.items
                     (songsSlice.reducer st (createSongSuccess created))).
Proof.
  intros Hnd Hfresh. cbn [songsSlice.reducer songsSlice.items].
  fold (replace_first updated (songsSlice.items st)).
  rewrite replace_first_ids. split; [done|]. split; [done|]. split.
  - apply (sublist_NoDup _ (_id <$> songsSlice.items st));
      first [exact Hnd | apply fmap_sublist, sublist_filter].
  - rewrite fmap_cons. by apply NoDup_cons.
Qed.

Lemma mirror_keeps_ids_distinct_witness :
  NoDup (_id <$> songsSlice.items mirror_sample)
  ∧ ("3" ∉ _id <$> songsSlice.items mirror_sample)
  ∧ NoDup (_id <$> songsSlice.items
                     (songsSlice.reducer mirror_sample
                        (createSongSuccess (mkSong "3" "T" "A" "B" "Pop" "" "")))).
Proof.
  assert (H1 : NoDup (_id <$> songsSlice.items mirror_sample)).
  { refine (bool_decide_unpack _ _). vm_compute. exact I. }
  assert (H2 : "3" ∉ _id <$> songsSlice.items mirror_sample).
  { refine (bool_decide_unpack _ _). vm_compute. exact I. }
  split; [exact H1|]. split; [exact H2|].
  destruct (mirror_keeps_ids_distinct mirror_sample
              (mkSong "3" "T" "A" "B" "Pop" "" "")
              (mkSong "1" "U" "A" "B" "Pop" "" "") "2" H1 H2)
    as (_ & _ & _ & H).
  exact H.
Defined.

Lemma filter_replace_first (updated : Song) (l : list Song) :
  filter (λ x, _id x ≠ _id updated) (replace_first updated l)
  = filter (λ x, _id x ≠ _id updated) l.
Proof.
  unfold replace_first.
  destruct (songsSlice.findIndex (_id updated) l) as [i|] eqn:Hfind; [|done].
  apply findIndex_Some in Hfind as [(x & Hx & Hid) _].
  revert i Hx. induction l as [|y l IH]; intros i Hx; [done|].
  destruct i as [|i]; simpl in *.
  - injection Hx as ->. rewrite !filter_cons, !decide_False; [done|..];
      by intros H; apply H.
  - rewrite !filter_cons, (IH i Hx). done.
Qed.

(** X21. A delete Success absorbs what came before for the same
    identifier: deleting twice is deleting once, and deleting after a
    create or an update Success of a record with that identifier gives
    the state that the delete alone gives. *)
Theorem delete_absorbs (st : songsSlice.SongsState) (s : Song) :
  let del := deleteSongSuccess (_id s) in
  songsSlice.reducer (songsSlice.reducer st del) del = songsSlice.reducer st del
  ∧ songsSlice.reducer (songsSlice.reducer st (createSongSuccess s)) del
    = songsSlice.reducer st del
  ∧ songsSlice.reducer (songsSlice.reducer st (updateSongSuccess s)) del
    = songsSlice.reducer st del.
Proof.
  intros del. subst del.
  cbn [songsSlice.reducer songsSlice.items songsSlice.loading songsSlice.error
       songsSlice.selectedSong].
  fold (replace_first s (songsSlice.items st)).
  rewrite filter_replace_first, filter_cons, decide_False by (by intros H; apply H).
  split; [|done]. f_equal. rewrite list_filter_filter.
  apply list_filter_iff. tauto.
Qed.

(** ** Changing the genre filter *)

(** X22. Whatever the filter is set to, the filter slice keeps the payload
    as it is, the songs slice enters [loading] with its [error] cleared
    and its items untouched, and a full fetch [api.fetchSongs] is issued
    for the songs watcher; when the payload is a non-empty genre, the
    filtered call [api.filterSongsByGenre] is issued as well and both are
    in flight; when the payload is [null] or empty, the filter watcher has
    nothing in flight. *)
Theorem setGenreFilter_issues_calls (d : nat)
    (rt : runtime (S:=RootState)) (payload : option string) :
  let rt1 :=
    dispatch rootReducer (Datatypes.S (Datatypes.S d)) (setGenreFilter payload) rt in
  filtersSlice.genre (filters (store rt1)) = payload
  ∧ songsSlice.loading (songs (store rt1)) = true
  ∧ songsSlice.error (songs (store rt1)) = None
  ∧ songsSlice.items (songs (store rt1)) = songsSlice.items (songs (store rt))
  ∧ requesting rt1 songs_watcher = Some (Datatypes.S (next_task rt))
  ∧ call_of rt1 songs_watcher = CallFetchSongs
  ∧ match payload_truthy payload with
    | Some g =>
        requesting rt1 filter_watcher = Some (next_task rt)
        ∧ call_of rt1 filter_watcher = CallFilterSongsByGenre g
    | None =>
        requesting rt1 filter_watcher = None
        ∧ call_of rt1 filter_watcher = NoCall
    end.
Proof.
  intros rt1. subst rt1.
  unfold requesting, call_of, in_flight, songs_watcher, filter_watcher.
  middleware. destruct (payload_truthy payload) as [g|]; middleware; done.
Qed.

(** X23. After a non-empty genre has been selected, the items of the
    Client Mirror are those of whichever of the two calls settles last:
    the full list when the filtered call settles first, the filtered list
    when the full fetch settles first. *)
Theorem filter_result_depends_on_arrival (d : nat)
    (rt : runtime (S:=RootState)) (g : string) (net : network)
    (all some : list Song) :
  JsString.truthy g = true →
  net _ api.fetchSongs = inl all →
  net _ (api.filterSongsByGenre g) = inl some →
  let rt1 :=
    dispatch rootReducer (Datatypes.S (Datatypes.S d))
      (setGenreFilter (Some g)) rt in
  let filter_task := next_task rt in
  let fetch_task := Datatypes.S (next_task rt) in
  let settle_filter := settle rootReducer (Datatypes.S d) filter_watcher filter_task net in
  let settle_fetch := settle rootReducer (Datatypes.S d) songs_watcher fetch_task net in
  songsSlice.items (songs (store (settle_fetch (settle_filter rt1)))) = all
  ∧ songsSlice.items (songs (store (settle_filter (settle_fetch rt1)))) = some
  ∧ filtersSlice.genre (filters (store (settle_fetch (settle_filter rt1)))) = Some g
  ∧ songsSlice.loading (songs (store (settle_filter rt1))) = false.
Proof.
  intros Hg Hall Hsome rt1 filter_task fetch_task settle_filter settle_fetch.
  subst rt1 filter_task fetch_task settle_filter settle_fetch.
  unfold settle, songs_watcher, filter_watcher. middleware.
  unfold payload_truthy. rewrite Hg. middleware.
  rewrite Hall, Hsome. middleware. rewrite ?Hall, ?Hsome. middleware. done.
Qed.

Lemma filter_result_depends_on_arrival_witness :
  JsString.truthy "Rock" = true
  ∧ catalogue_network _ api.fetchSongs
    = inl [ mkSong "1" "Song 1" "Artist 1" "Album 1" "Rock" "" "";
            mkSong "2" "New Song" "Artist 2" "Album 2" "Pop" "" "" ]
  ∧ catalogue_network _ (api.filterSongsByGenre "Rock")
    = inl [ mkSong "1" "Song 1" "Artist 1" "Album 1" "Rock" "" "" ]
  ∧ songsSlice.items
      (songs (store
         (settle rootReducer 1 songs_watcher 1 catalogue_network
            (settle rootReducer 1 filter_watcher 0 catalogue_network
               (dispatch rootReducer 2 (setGenreFilter (Some "Rock"))
                  initialRuntime)))))
    = [ mkSong "1" "Song 1" "Artist 1" "Album 1" "Rock" "" "";
        mkSong "2" "New Song" "Artist 2" "Album 2" "Pop" "" "" ].
Proof.
  split; [reflexivity|]. split; [reflexivity|]. split; [reflexivity|].
  destruct (filter_result_depends_on_arrival 0 initialRuntime "Rock"
              catalogue_network _ _ eq_refl eq_refl eq_refl) as [H _].
  exact H.
Defined.

(** ** Nesting of dispatches *)

Section Depth.
Context {S : Type} (reduce : S → action → S).

(** X24. Dispatching never nests deeper than two levels: for every action
    and every state of the middleware, a dispatch allowed any greater
    depth gives the state that depth two gives.  No saga of [rootSaga]
    puts, before its first call, an action whose saga puts again. *)
Theorem dispatch_depth_two_suffices (d : nat) (a : action) (rt : runtime) :
  dispatch reduce (Datatypes.S (Datatypes.S d)) a rt = dispatch reduce 2 a rt.
Proof.
  destruct a; middleware; try reflexivity.
  match goal with
  | |- context [payload_truthy ?p] => destruct (payload_truthy p)
  end; middleware; reflexivity.
Qed.

End Depth.
